(** * Dynamic-programming notebook: Fibonacci, longest increasing
      subsequence and 0-1 knapsack

    A shallow embedding of the code cells of
    [notebooks/misc/DynamicProgramming.ipynb] ([fib], [all_fib],
    [all_fib_dp], [find_lis], [knapsack]) and the properties of them that
    the specification states.

    Python integers are unbounded, so they are [Z].  A Python list is a
    [list]; reading [l[i]] and writing [l[i] = v] raise [IndexError] out of
    range and count a negative index from the end, which [getitem] and
    [setitem] reproduce.  A function of the notebook returns a value,
    raises, or (for the recursion of [fib] and the [while] loop of
    [find_lis]) may fail to come back: that is the type [outcome]. *)

From stdpp Require Import base list.
From Stdlib Require Import ZArith Lia.

Local Open Scope Z_scope.

(** ** Outcomes of a Python call *)

Inductive exn : Type := IndexError.

Inductive outcome (A : Type) : Type :=
  | Return (a : A)      (* the call returns [a] *)
  | Raise (e : exn)     (* the call raises *)
  | Timeout.            (* the fuel given to a loop or a recursion ran out *)

Arguments Return {A} a.
Arguments Raise {A} e.
Arguments Timeout {A}.

Definition bind {A B : Type} (o : outcome A) (k : A -> outcome B) : outcome B :=
  match o with
  | Return a => k a
  | Raise e => Raise e
  | Timeout => Timeout
  end.

Notation "x <- c1 ;; c2" := (bind c1 (fun x => c2))
  (at level 100, c1 at next level, right associativity).

(** A call fails when it does not return a value. *)
Definition fails {A : Type} (o : outcome A) : Prop := forall a, o <> Return a.

(** [for x in l: s = body(s, x)] *)
Fixpoint foldM {S X : Type} (body : S -> X -> outcome S) (s : S) (l : list X)
  : outcome S :=
  match l with
  | [] => Return s
  | x :: l' => s' <- body s x ;; foldM body s' l'
  end.

(** ** Python lists and ranges *)

Definition len {A : Type} (l : list A) : Z := Z.of_nat (length l).

(** The position an index denotes: a negative index counts from the end. *)
Definition norm_index (n i : Z) : Z := if i <? 0 then i + n else i.

(** [l[i]] *)
Definition getitem {A : Type} (l : list A) (i : Z) : outcome A :=
  let k := norm_index (len l) i in
  if (0 <=? k) && (k <? len l) then
    match l !! Z.to_nat k with
    | Some a => Return a
    | None => Raise IndexError
    end
  else Raise IndexError.

(** [l[i] = v] *)
Definition setitem {A : Type} (l : list A) (i : Z) (v : A) : outcome (list A) :=
  let k := norm_index (len l) i in
  if (0 <=? k) && (k <? len l) then Return (<[Z.to_nat k := v]> l)
  else Raise IndexError.

(** [range(start, stop)] and [range(stop)] *)
Definition range2 (start stop : Z) : list Z :=
  map (fun k => start + Z.of_nat k) (seq 0 (Z.to_nat (stop - start))).

Definition range (stop : Z) : list Z := range2 0 stop.

(** [range(start, stop, -1)] *)
Definition range_down (start stop : Z) : list Z :=
  map (fun k => start - Z.of_nat k) (seq 0 (Z.to_nat (start - stop))).

(** ** Fibonacci numbers *)

(** [fib(n)]: the recursion of the source, with the depth it may use as
    fuel (on a negative [n] it never reaches a base case). *)
Fixpoint fib (fuel : nat) (n : Z) : outcome Z :=
  match fuel with
  | O => Timeout
  | S fuel' =>
      if n =? 0 then Return 0
      else if n =? 1 then Return 1
      else a <- fib fuel' (n - 1) ;; b <- fib fuel' (n - 2) ;; Return (a + b)
  end.

(** [all_fib(n)] *)
Definition all_fib (fuel : nat) (n : Z) : outcome (list Z) :=
  foldM (fun fibs i => x <- fib fuel i ;; Return (fibs ++ [x])) [] (range n).

(** [all_fib_dp(n)] *)
Definition all_fib_dp (n : Z) : outcome (list Z) :=
  foldM (fun fibs i =>
           if i <? 2 then Return (fibs ++ [i])
           else a <- getitem fibs (i - 2) ;;
                b <- getitem fibs (i - 1) ;;
                Return (fibs ++ [a + b]))
        [] (range n).

(** ** Longest increasing subsequence *)

(** The variables [find_lis] updates in its loops. *)
Record lis_state : Type := LisState {
  st_length : list Z;        (* [length] *)
  st_prev : list Z;          (* [prev] *)
  st_max_length : Z;         (* [max_length] *)
  st_best_seq_end : Z        (* [best_seq_end] *)
}.

(** The body of [for j in range(i - 1, -1, -1)]: the test reads
    [length[j]] and [length[i]] first and the sequence only when the first
    comparison holds. *)
Definition lis_inner (seq : list Z) (i : Z) (st : lis_state) (j : Z)
  : outcome lis_state :=
  lj <- getitem (st_length st) j ;;
  li <- getitem (st_length st) i ;;
  if lj + 1 >? li then
    sj <- getitem seq j ;;
    si <- getitem seq i ;;
    if sj <? si then
      lj' <- getitem (st_length st) j ;;
      length' <- setitem (st_length st) i (lj' + 1) ;;
      prev' <- setitem (st_prev st) i j ;;
      Return (LisState length' prev' (st_max_length st) (st_best_seq_end st))
    else Return st
  else Return st.

(** The body of [for i in range(1, n)]. *)
Definition lis_outer (seq : list Z) (st : lis_state) (i : Z) : outcome lis_state :=
  length0 <- setitem (st_length st) i 0 ;;
  prev0 <- setitem (st_prev st) i (-1) ;;
  st1 <- foldM (lis_inner seq i)
               (LisState length0 prev0 (st_max_length st) (st_best_seq_end st))
               (range_down (i - 1) (-1)) ;;
  li <- getitem (st_length st1) i ;;
  if li >? st_max_length st1 then
    Return (LisState (st_length st1) (st_prev st1) li i)
  else Return st1.

(** The tables and the best end index once the loop over [i] is done. *)
Definition lis_tables (seq : list Z) : outcome lis_state :=
  let n := len seq in
  let max_length := 1 in
  let best_seq_end := -1 in
  prev <- setitem (map (fun _ => 0) (range n)) 0 (-1) ;;
  length <- setitem (map (fun _ => 0) (range n)) 0 1 ;;
  foldM (lis_outer seq) (LisState length prev max_length best_seq_end)
        (range2 1 n).

(** [while element != -1: lis.append(seq[element]); element = prev[element]],
    run for at most [fuel] iterations. *)
Fixpoint lis_recover (fuel : nat) (seq prev lis : list Z) (element : Z)
  : outcome (list Z) :=
  if element =? -1 then Return lis
  else
    match fuel with
    | O => Timeout
    | S fuel' =>
        x <- getitem seq element ;;
        element' <- getitem prev element ;;
        lis_recover fuel' seq prev (lis ++ [x]) element'
    end.

(** [find_lis(seq)], the [while] loop being given [fuel] iterations. *)
Definition find_lis_fuel (fuel : nat) (seq : list Z) : outcome (list Z) :=
  st <- lis_tables seq ;;
  lis <- lis_recover fuel seq (st_prev st) [] (st_best_seq_end st) ;;
  Return (reverse lis).

(** [find_lis(seq)]: one iteration of the [while] loop for each element of
    [seq] is all the loop ever needs ([find_lis_fuel_enough]). *)
Definition find_lis (seq : list Z) : outcome (list Z) :=
  find_lis_fuel (length seq) seq.

(** ** 0-1 knapsack *)

(** [S[k][x]] *)
Definition getcell (S : list (list Z)) (k x : Z) : outcome Z :=
  row <- getitem S k ;; getitem row x.

(** [S[k][x] = val] *)
Definition setcell (S : list (list Z)) (k x val : Z) : outcome (list (list Z)) :=
  row <- getitem S k ;;
  row' <- setitem row x val ;;
  setitem S k row'.

(** The body of [for k in range(1, n)], for the column [x]. *)
Definition knapsack_cell (w v : list Z) (x : Z) (S : list (list Z)) (k : Z)
  : outcome (list (list Z)) :=
  above <- getcell S (k - 1) x ;;
  S1 <- setcell S k x above ;;
  wk <- getitem w k ;;
  if wk <? x then
    wk1 <- getitem w k ;;
    diag <- getcell S1 (k - 1) (x - wk1) ;;
    vk <- getitem v k ;;
    cur <- getcell S1 k x ;;
    if diag + vk >? cur then
      wk2 <- getitem w k ;;
      diag' <- getcell S1 (k - 1) (x - wk2) ;;
      vk' <- getitem v k ;;
      setcell S1 k x (diag' + vk')
    else Return S1
  else Return S1.

(** [knapsack(W, w, v)] *)
Definition knapsack (W : Z) (w v : list Z) : outcome (list (list Z)) :=
  let n := len v in
  let S := map (fun _ => map (fun _ => 0) (range W)) (range n) in
  foldM (fun S x => foldM (knapsack_cell w v x) S (range2 1 n)) S (range2 1 W).

(** ** Notions the properties are stated with *)

(** The Fibonacci numbers, [F 0 = 0], [F 1 = 1], [F (n+2) = F (n+1) + F n]. *)
Fixpoint Fib (n : nat) : Z :=
  match n with
  | O => 0
  | S m => match m with
           | O => 1
           | S p => Fib m + Fib p
           end
  end.

(** A list is strictly increasing when each element is below the next. *)
Fixpoint strictly_increasing (l : list Z) : bool :=
  match l with
  | a :: (b :: _) as t => (a <? b) && strictly_increasing t
  | _ => true
  end.

(** All subsequences of a list (elements kept in their order), which are
    also the subsets of a list of items. *)
Fixpoint subsequences {A : Type} (l : list A) : list (list A) :=
  match l with
  | [] => [[]]
  | a :: t => map (cons a) (subsequences t) ++ subsequences t
  end.

(** The greatest length of a strictly increasing subsequence, by
    enumeration. *)
Definition max_increasing_length (l : list Z) : nat :=
  foldr Nat.max O
    (map length
       (filter (fun s => Is_true (strictly_increasing s)) (subsequences l))).

(** The optimum of the 0-1 knapsack problem, by enumeration: the greatest
    total value of a subset of the items (weight, value) whose total weight
    is at most the capacity (the empty subset, of value 0, when none
    fits). *)
Definition total (l : list Z) : Z := foldr Z.add 0 l.

Definition item_weight (s : list (Z * Z)) : Z := total (map fst s).
Definition item_value (s : list (Z * Z)) : Z := total (map snd s).

Definition optimum (cap : Z) (items : list (Z * Z)) : Z :=
  foldr Z.max 0
    (map item_value
       (filter (fun s => item_weight s <= cap) (subsequences items))).

Definition knapsack_optimum (W : Z) (w v : list Z) : Z := optimum W (zip w v).

(** What [length[k]] is set to before the candidates of [k] are scanned:
    1 at the index 0, 0 elsewhere. *)
Definition lis_base (k : nat) : Z := match k with O => 1 | S _ => 0 end.

(** The table entry of index [k] is consistent with a scan of the
    candidates [j] of [lo <= j < k]: either no candidate improved it, or it
    is one more than the entry of its predecessor, a smaller element before
    it; no scanned candidate offers more, and none of those that offer as
    much comes after the predecessor. *)
Definition lis_entry (seq L P : list Z) (lo k : nat) : Prop :=
  exists lk pk sk,
    L !! k = Some lk /\ P !! k = Some pk /\ seq !! k = Some sk /\ 0 <= lk /\
    ((pk = -1 /\ lk = lis_base k) \/
     (exists p lp sp,
         pk = Z.of_nat p /\ (lo <= p < k)%nat /\
         L !! p = Some lp /\ seq !! p = Some sp /\ sp < sk /\ lk = lp + 1)) /\
    (forall j lj sj,
        (lo <= j < k)%nat -> L !! j = Some lj -> seq !! j = Some sj -> sj < sk ->
        lj + 1 <= lk /\ (lj + 1 = lk -> Z.of_nat j <= pk)).

(** The state of [find_lis] once the indices below [m] are done. *)
Definition lis_inv (seq : list Z) (m : nat) (st : lis_state) : Prop :=
  length (st_length st) = length seq /\
  length (st_prev st) = length seq /\
  (forall k, (k < m)%nat -> lis_entry seq (st_length st) (st_prev st) 0 k) /\
  1 <= st_max_length st /\
  (st_best_seq_end st = -1 \/
   exists e le, st_best_seq_end st = Z.of_nat e /\ (e < m)%nat /\
                st_length st !! e = Some le /\ 2 <= le).

(** The entry of row [k] and column [x] of a table, when there is one. *)
Definition cell (S : list (list Z)) (k x : nat) : option Z :=
  match S !! k with
  | Some row => row !! x
  | None => None
  end.

(** The cell [(k, x)] holds what the body of the loops of [knapsack]
    writes there, computed from the cells of the row above. *)
Definition knap_cell_ok (w v : list Z) (S : list (list Z)) (k x : nat) : Prop :=
  exists wk vk above cur,
    w !! k = Some wk /\ v !! k = Some vk /\
    cell S (k - 1) x = Some above /\ cell S k x = Some cur /\
    (Z.of_nat x <= wk -> cur = above) /\
    (wk < Z.of_nat x ->
     exists diag,
       cell S (k - 1) (Z.to_nat (Z.of_nat x - wk)) = Some diag /\
       cur = if diag + vk >? above then diag + vk else above).

(** The table of [knapsack] when the columns before [x0] are filled, and
    the rows before [k0] of the column [x0]; row 0 and column 0 stay as
    they were created, all zeros. *)
Definition knap_inv (w v : list Z) (Wn : nat) (S : list (list Z)) (x0 k0 : nat)
  : Prop :=
  length S = length v /\
  (forall k row, S !! k = Some row -> length row = Wn) /\
  (forall k x,
      (1 <= k < length v)%nat -> (1 <= x < Wn)%nat ->
      (x < x0 \/ (x = x0 /\ k < k0))%nat -> knap_cell_ok w v S k x) /\
  (forall k x a, (k = 0 \/ x = 0)%nat -> cell S k x = Some a -> a = 0).

(** What [max_length] and [best_seq_end] are once the indices below [m]
    are done: [max_length] bounds the entries of [length] so far; it is
    still 1 while no best end was recorded, and is the entry of the best
    end otherwise. *)
Definition lis_best_inv (m : nat) (st : lis_state) : Prop :=
  (forall k lk, (k < m)%nat -> st_length st !! k = Some lk ->
                lk <= st_max_length st) /\
  (st_best_seq_end st = -1 -> st_max_length st = 1) /\
  (forall e, st_best_seq_end st = Z.of_nat e ->
             st_length st !! e = Some (st_max_length st)).

(** * Properties *)

(** ** The outcome monad, lists and ranges *)

Lemma bind_Return {A B : Type} (a : A) (k : A -> outcome B) :
  bind (Return a) k = k a.
Proof. reflexivity. Qed.

Lemma foldM_app {S X : Type} (body : S -> X -> outcome S) (l1 l2 : list X) (s : S) :
  foldM body s (l1 ++ l2) = (s' <- foldM body s l1 ;; foldM body s' l2).
Proof.
  revert s. induction l1 as [|x l1 IH]; intros s; simpl; [reflexivity|].
  destruct (body s x); simpl; auto.
Qed.

Lemma foldM_snoc {S X : Type} (body : S -> X -> outcome S) (l : list X) (x : X)
    (s s' : S) :
  foldM body s l = Return s' -> foldM body s (l ++ [x]) = body s' x.
Proof.
  intros H. rewrite foldM_app, H. simpl. destruct (body s' x); reflexivity.
Qed.

Lemma getitem_nat {A : Type} (l : list A) (k : nat) (a : A) :
  l !! k = Some a -> getitem l (Z.of_nat k) = Return a.
Proof.
  intros H. pose proof (lookup_lt_Some _ _ _ H) as Hlt.
  unfold getitem, norm_index, len.
  destruct (Z.ltb_spec (Z.of_nat k) 0) as [?|_]; [lia|].
  destruct (Z.leb_spec 0 (Z.of_nat k)) as [_|?]; [|lia].
  destruct (Z.ltb_spec (Z.of_nat k) (Z.of_nat (length l))) as [_|?]; [|lia].
  simpl. rewrite Nat2Z.id, H. reflexivity.
Qed.

Lemma getitem_Z {A : Type} (l : list A) (i : Z) (a : A) :
  0 <= i -> l !! Z.to_nat i = Some a -> getitem l i = Return a.
Proof.
  intros Hi H. rewrite <- (Z2Nat.id i) by assumption. apply getitem_nat, H.
Qed.

Lemma setitem_nat {A : Type} (l : list A) (k : nat) (v : A) :
  (k < length l)%nat -> setitem l (Z.of_nat k) v = Return (<[k := v]> l).
Proof.
  intros Hlt. unfold setitem, norm_index, len.
  destruct (Z.ltb_spec (Z.of_nat k) 0) as [?|_]; [lia|].
  destruct (Z.leb_spec 0 (Z.of_nat k)) as [_|?]; [|lia].
  destruct (Z.ltb_spec (Z.of_nat k) (Z.of_nat (length l))) as [_|?]; [|lia].
  simpl. rewrite Nat2Z.id. reflexivity.
Qed.

Lemma setitem_0 {A : Type} (l : list A) (v : A) :
  (0 < length l)%nat -> setitem l 0 v = Return (<[O := v]> l).
Proof. exact (setitem_nat l 0 v). Qed.

Lemma range2_length (a b : Z) : length (range2 a b) = Z.to_nat (b - a).
Proof. unfold range2. rewrite length_map, length_seq. reflexivity. Qed.

Lemma range2_nil (a b : Z) : b <= a -> range2 a b = [].
Proof.
  intros H. unfold range2. replace (Z.to_nat (b - a)) with O by lia. reflexivity.
Qed.

Lemma range2_snoc (a b : Z) : a <= b -> range2 a (b + 1) = range2 a b ++ [b].
Proof.
  intros H. unfold range2.
  replace (Z.to_nat (b + 1 - a)) with (S (Z.to_nat (b - a))) by lia.
  rewrite seq_S, map_app. simpl. do 2 f_equal. lia.
Qed.

Lemma range_down_nil (a b : Z) : a <= b -> range_down a b = [].
Proof.
  intros H. unfold range_down. replace (Z.to_nat (a - b)) with O by lia.
  reflexivity.
Qed.

Lemma range_down_snoc (a b : Z) :
  b <= a -> range_down a (b - 1) = range_down a b ++ [b].
Proof.
  intros H. unfold range_down.
  replace (Z.to_nat (a - (b - 1))) with (S (Z.to_nat (a - b))) by lia.
  rewrite seq_S, map_app. simpl. do 2 f_equal. lia.
Qed.

Lemma length_zeros (n : Z) : length (map (fun _ : Z => 0) (range n)) = Z.to_nat n.
Proof.
  unfold range. rewrite length_map, range2_length. f_equal. lia.
Qed.

(** ** Fibonacci *)

Lemma Fib_SS (n : nat) : Fib (S (S n)) = Fib (S n) + Fib n.
Proof. reflexivity. Qed.

(** The recursion of [fib] comes back on every [n >= 0], within depth
    [max 1 n], with the [n]-th Fibonacci number. *)
Lemma fib_Fib (fuel k : nat) :
  (k <= fuel)%nat -> (1 <= fuel)%nat -> fib fuel (Z.of_nat k) = Return (Fib k).
Proof.
  revert k. induction fuel as [|fuel IH]; intros k Hk H1; [lia|].
  destruct k as [|[|k]]; [reflexivity|reflexivity|].
  cbn [fib].
  destruct (Z.eqb_spec (Z.of_nat (S (S k))) 0) as [?|_]; [lia|].
  destruct (Z.eqb_spec (Z.of_nat (S (S k))) 1) as [?|_]; [lia|].
  replace (Z.of_nat (S (S k)) - 1) with (Z.of_nat (S k)) by lia.
  replace (Z.of_nat (S (S k)) - 2) with (Z.of_nat k) by lia.
  rewrite !IH by lia. reflexivity.
Qed.

Lemma all_fib_nat (fuel m : nat) :
  (m <= fuel)%nat -> all_fib fuel (Z.of_nat m) = Return (map Fib (seq 0 m)).
Proof.
  unfold all_fib, range. induction m as [|m IH]; intros Hm; [reflexivity|].
  replace (Z.of_nat (S m)) with (Z.of_nat m + 1) by lia.
  rewrite range2_snoc by lia.
  rewrite (foldM_snoc _ _ _ _ _ (IH ltac:(lia))).
  destruct m as [|m].
  - destruct fuel; [lia|]. reflexivity.
  - rewrite fib_Fib by lia. rewrite bind_Return, (seq_S (S m)), map_app. reflexivity.
Qed.

Lemma all_fib_dp_nat (m : nat) :
  all_fib_dp (Z.of_nat m) = Return (map Fib (seq 0 m)).
Proof.
  unfold all_fib_dp, range. induction m as [|m IH]; [reflexivity|].
  replace (Z.of_nat (S m)) with (Z.of_nat m + 1) by lia.
  rewrite range2_snoc by lia.
  rewrite (foldM_snoc _ _ _ _ _ IH).
  destruct (Z.ltb_spec (Z.of_nat m) 2) as [Hlt|Hge].
  - destruct m as [|[|m]]; [reflexivity|reflexivity|lia].
  - destruct m as [|[|m]]; [lia|lia|].
    replace (Z.of_nat (S (S m)) - 2) with (Z.of_nat m) by lia.
    replace (Z.of_nat (S (S m)) - 1) with (Z.of_nat (S m)) by lia.
    rewrite (getitem_nat _ m (Fib m)), (getitem_nat _ (S m) (Fib (S m))).
    + rewrite !bind_Return, (seq_S (S (S m))), map_app.
      cbn [map Nat.add]. rewrite Fib_SS. do 3 f_equal. lia.
    + rewrite list_lookup_fmap, lookup_seq_lt by lia. reflexivity.
    + rewrite list_lookup_fmap, lookup_seq_lt by lia. reflexivity.
Qed.

Lemma all_fib_neg (fuel : nat) (n : Z) : n <= 0 -> all_fib fuel n = Return [].
Proof.
  intros H. unfold all_fib, range. rewrite range2_nil by lia. reflexivity.
Qed.

Lemma all_fib_dp_neg (n : Z) : n <= 0 -> all_fib_dp n = Return [].
Proof.
  intros H. unfold all_fib_dp, range. rewrite range2_nil by lia. reflexivity.
Qed.

(** On every [n] the naive generator, given a recursion depth of at least
    [n], and the tabulated one return the same list. *)
Lemma all_fib_all_fib_dp (fuel : nat) (n : Z) :
  (Z.to_nat n <= fuel)%nat -> all_fib fuel n = all_fib_dp n.
Proof.
  intros H. destruct (Z.le_gt_cases n 0) as [Hn|Hn].
  - rewrite all_fib_neg, all_fib_dp_neg by assumption. reflexivity.
  - rewrite <- (Z2Nat.id n) by lia.
    rewrite all_fib_nat, all_fib_dp_nat by lia. reflexivity.
Qed.

(** C9: for every [n] with [0 <= n <= 25] the naive variant [all_fib]
    (given a recursion depth of at least [n]) and the tabulated variant
    [all_fib_dp] return the same sequence; both return [[]] for [n = 0],
    [[0]] for [n = 1] and [[0,1,1,2,3,5,8,13,21,34]] for [n = 10]. *)
Theorem fib_variants_agree :
  (forall (n : Z) (fuel : nat),
      0 <= n <= 25 -> (Z.to_nat n <= fuel)%nat ->
      exists fibs, all_fib fuel n = Return fibs /\ all_fib_dp n = Return fibs) /\
  (all_fib 0 0 = Return [] /\ all_fib_dp 0 = Return []) /\
  (all_fib 1 1 = Return [0] /\ all_fib_dp 1 = Return [0]) /\
  (all_fib 10 10 = Return [0; 1; 1; 2; 3; 5; 8; 13; 21; 34] /\
   all_fib_dp 10 = Return [0; 1; 1; 2; 3; 5; 8; 13; 21; 34]).
Proof.
  split; [|repeat split; reflexivity].
  intros n fuel Hn Hfuel. exists (map Fib (seq 0 (Z.to_nat n))).
  rewrite all_fib_all_fib_dp by assumption.
  pose proof (all_fib_dp_nat (Z.to_nat n)) as H.
  rewrite Z2Nat.id in H by lia. split; exact H.
Qed.

(** ** Longest increasing subsequence: the tables *)

Section LisTables.
Variable seq : list Z.

(** An entry only depends on the tables up to its index. *)
Lemma lis_entry_ext (L P L' P' : list Z) (lo k : nat) :
  (forall j, (j <= k)%nat -> L' !! j = L !! j /\ P' !! j = P !! j) ->
  lis_entry seq L P lo k -> lis_entry seq L' P' lo k.
Proof.
  intros Hext (lk & pk & sk & HL & HP & Hs & H0 & Hprev & Hscan).
  exists lk, pk, sk.
  destruct (Hext k (Nat.le_refl k)) as [-> ->].
  split_and!; try assumption.
  - destruct Hprev as [?|(p & lp & sp & ? & ? & ? & ?)]; [left; assumption|].
    right. exists p, lp, sp. destruct (Hext p ltac:(lia)) as [-> _]. auto.
  - intros j lj sj Hj HLj. destruct (Hext j ltac:(lia)) as [HLj' _].
    rewrite HLj' in HLj. eapply Hscan; eassumption.
Qed.

(** One candidate [j] of the scan for index [i]. *)
Lemma lis_inner_step (i j : nat) (L P : list Z) (ml b lj li sj si : Z) :
  (i < length L)%nat -> (i < length P)%nat ->
  L !! j = Some lj -> L !! i = Some li ->
  seq !! j = Some sj -> seq !! i = Some si ->
  lis_inner seq (Z.of_nat i) (LisState L P ml b) (Z.of_nat j) =
  Return (if (lj + 1 >? li) && (sj <? si)
          then LisState (<[i := lj + 1]> L) (<[i := Z.of_nat j]> P) ml b
          else LisState L P ml b).
Proof.
  intros HiL HiP HLj HLi Hsj Hsi. unfold lis_inner. cbn [st_length st_prev
    st_max_length st_best_seq_end].
  rewrite (getitem_nat _ _ _ HLj), (getitem_nat _ _ _ HLi), !bind_Return.
  destruct (lj + 1 >? li); [|reflexivity].
  rewrite (getitem_nat _ _ _ Hsj), (getitem_nat _ _ _ Hsi), !bind_Return.
  destruct (sj <? si); [|reflexivity].
  rewrite ?bind_Return, !setitem_nat by assumption. reflexivity.
Qed.

(** The scan [for j in range(i - 1, -1, -1)] after its first [c]
    candidates: only the entry of [i] changed, and it is consistent with
    the candidates scanned so far. *)
Lemma lis_inner_loop (i : nat) (L0 P0 : list Z) (ml b : Z) :
  (1 <= i)%nat -> (i < length seq)%nat ->
  length L0 = length seq -> length P0 = length seq ->
  L0 !! i = Some 0 -> P0 !! i = Some (-1) ->
  (forall k, (k < i)%nat -> lis_entry seq L0 P0 0 k) ->
  forall c, (c <= i)%nat ->
  exists L P,
    foldM (lis_inner seq (Z.of_nat i)) (LisState L0 P0 ml b)
          (range_down (Z.of_nat i - 1) (Z.of_nat i - 1 - Z.of_nat c)) =
    Return (LisState L P ml b) /\
    length L = length seq /\ length P = length seq /\
    (forall k, k <> i -> L !! k = L0 !! k /\ P !! k = P0 !! k) /\
    lis_entry seq L P (i - c) i.
Proof.
  intros Hi1 Hin HlenL HlenP HL0i HP0i Hdone.
  destruct (lookup_lt_is_Some_2 seq i Hin) as [si Hsi].
  induction c as [|c IH]; intros Hc.
  - exists L0, P0. rewrite range_down_nil by lia.
    split_and!; auto.
    exists 0, (-1), si. split_and!; auto; [lia| |intros; lia].
    left. destruct i; [lia|]. auto.
  - destruct (IH ltac:(lia)) as (L & P & Hrun & HlL & HlP & Hsame & Hent).
    clear IH.
    replace (Z.of_nat i - 1 - Z.of_nat (S c))
      with (Z.of_nat i - 1 - Z.of_nat c - 1) by lia.
    rewrite range_down_snoc by lia.
    rewrite (foldM_snoc _ _ _ _ _ Hrun).
    replace (Z.of_nat i - 1 - Z.of_nat c) with (Z.of_nat (i - S c)) by lia.
    set (j := (i - S c)%nat) in *.
    assert (Hji : (j < i)%nat) by (unfold j; lia).
    destruct (Hdone j Hji) as (lj & pj & sj & HL0j & _ & Hsj & Hlj0 & _).
    destruct (Hsame j ltac:(lia)) as [HLj _]. rewrite HL0j in HLj.
    destruct Hent as (li & pi & si' & HLi & HPi & Hsi' & Hli0 & Hprev & Hscan).
    assert (si' = si) as -> by congruence.
    rewrite (lis_inner_step i j L P ml b lj li sj si) by (auto; lia).
    destruct ((lj + 1 >? li) && (sj <? si)) eqn:Hcond.
    + apply andb_prop in Hcond as [Hgt Hlt].
      apply Z.gtb_lt in Hgt. apply Z.ltb_lt in Hlt.
      exists (<[i := lj + 1]> L), (<[i := Z.of_nat j]> P).
      split_and!; auto.
      * rewrite length_insert. assumption.
      * rewrite length_insert. assumption.
      * intros k Hk. rewrite !list_lookup_insert_ne by auto. auto.
      * exists (lj + 1), (Z.of_nat j), si.
        rewrite !list_lookup_insert_eq by lia.
        split_and!; auto; [lia| |].
        -- right. exists j, lj, sj.
           rewrite list_lookup_insert_ne by lia.
           split_and!; auto; lia.
        -- intros j' lj' sj' Hj' HLj' Hsj' Hlt'.
           rewrite list_lookup_insert_ne in HLj' by lia.
           destruct (decide (j' = j)) as [->|Hne].
           ++ assert (lj' = lj) by congruence. lia.
           ++ destruct (Hscan j' lj' sj' ltac:(unfold j in *; lia) HLj' Hsj' Hlt').
              lia.
    + exists L, P. split_and!; auto.
      exists li, pi, si. split_and!; auto.
      * destruct Hprev as [?|(p & lp & sp & ? & ? & ? & ? & ? & ?)];
          [left; assumption|].
        right. exists p, lp, sp. split_and!; auto; lia.
      * intros j' lj' sj' Hj' HLj' Hsj' Hlt'.
        destruct (decide (j' = j)) as [->|Hne].
        -- assert (lj' = lj) by congruence.
           assert (sj' = sj) by congruence. subst lj' sj'.
           apply andb_false_iff in Hcond as [Hngt|Hnlt];
             [|apply Z.ltb_ge in Hnlt; lia].
           assert (lj + 1 <= li) by (destruct (Z.gtb_spec (lj + 1) li); [discriminate|lia]).
           split; [assumption|]. intros Heq.
           destruct Hprev as [[-> Hbase]|(p & lp & sp & -> & Hp & _)].
           ++ destruct i; [lia|]. simpl in Hbase. lia.
           ++ unfold j in *. lia.
        -- apply (Hscan j' lj' sj'); auto. unfold j in *. lia.
Qed.

(** One iteration of [for i in range(1, n)]. *)
Lemma lis_outer_step (i : nat) (st : lis_state) :
  (1 <= i)%nat -> (i < length seq)%nat -> lis_inv seq i st ->
  exists st', lis_outer seq st (Z.of_nat i) = Return st' /\ lis_inv seq (S i) st'.
Proof.
  intros Hi1 Hin. destruct st as [L0 P0 ml b].
  intros (HlL & HlP & Hdone & Hml & Hbest).
  cbn [st_length st_prev st_max_length st_best_seq_end] in *.
  unfold lis_outer. cbn [st_length st_prev st_max_length st_best_seq_end].
  rewrite !setitem_nat, !bind_Return by lia.
  destruct (lis_inner_loop i (<[i := 0]> L0) (<[i := -1]> P0) ml b)
    with (c := i) as (L & P & Hrun & HL & HP & Hsame & Hent);
    rewrite ?length_insert; auto; try lia.
  { apply list_lookup_insert_eq. lia. }
  { apply list_lookup_insert_eq. lia. }
  { intros k Hk. apply (lis_entry_ext L0 P0); [|auto].
    intros j Hj. rewrite !list_lookup_insert_ne by lia. auto. }
  replace (Z.of_nat i - 1 - Z.of_nat i) with (-1) in Hrun by lia.
  rewrite Nat.sub_diag in Hent. rewrite Hrun, bind_Return.
  cbn [st_length st_prev st_max_length st_best_seq_end].
  assert (Hkeep : forall k, (k < i)%nat -> L !! k = L0 !! k /\ P !! k = P0 !! k).
  { intros k Hk. destruct (Hsame k ltac:(lia)) as [-> ->].
    rewrite !list_lookup_insert_ne by lia. auto. }
  assert (Hall : forall k, (k < S i)%nat -> lis_entry seq L P 0 k).
  { intros k Hk. destruct (decide (k = i)) as [->|Hne]; [assumption|].
    apply (lis_entry_ext L0 P0); [|apply Hdone; lia].
    intros j Hj. apply Hkeep. lia. }
  destruct Hent as (li & pi & si & HLi & _).
  rewrite (getitem_nat _ _ _ HLi), bind_Return.
  destruct (Z.gtb_spec li ml) as [Hgt|Hle].
  - eexists. split; [reflexivity|].
    unfold lis_inv. cbn [st_length st_prev st_max_length st_best_seq_end].
    split_and!; auto; [lia|].
    right. exists i, li. split_and!; auto; lia.
  - eexists. split; [reflexivity|].
    unfold lis_inv. cbn [st_length st_prev st_max_length st_best_seq_end].
    split_and!; auto.
    destruct Hbest as [?|(e & le & ? & ? & HLe & ?)]; [left; assumption|].
    right. exists e, le. destruct (Hkeep e ltac:(lia)) as [-> _].
    split_and!; auto.
Qed.

(** The loop [for i in range(1, n)] run up to [m]. *)
Lemma lis_outer_loop (L0 P0 : list Z) :
  lis_inv seq 1 (LisState L0 P0 1 (-1)) ->
  forall m, (1 <= m <= length seq)%nat ->
  exists st,
    foldM (lis_outer seq) (LisState L0 P0 1 (-1)) (range2 1 (Z.of_nat m)) =
    Return st /\ lis_inv seq m st.
Proof.
  intros Hinit m [Hm1 Hmn]. induction m as [|m IH]; [lia|].
  destruct (decide (m = 0)%nat) as [->|Hm].
  - eexists. split; [reflexivity|assumption].
  - destruct IH as (st & Hrun & Hinv); [lia..|].
    replace (Z.of_nat (S m)) with (Z.of_nat m + 1) by lia.
    rewrite range2_snoc by lia. rewrite (foldM_snoc _ _ _ _ _ Hrun).
    apply lis_outer_step; auto; lia.
Qed.

(** On a non-empty sequence the tables are built without an error and
    every entry is consistent. *)
Lemma lis_tables_inv :
  seq <> [] ->
  exists st, lis_tables seq = Return st /\ lis_inv seq (length seq) st.
Proof.
  intros Hne.
  assert (Hlen : (1 <= length seq)%nat) by (destruct seq; [congruence|simpl; lia]).
  unfold lis_tables, len.
  rewrite !setitem_0, !bind_Return by (rewrite length_zeros; lia).
  apply lis_outer_loop; [|lia].
  unfold lis_inv. cbn [st_length st_prev st_max_length st_best_seq_end].
  rewrite !length_insert, !length_zeros.
  split_and!; auto; try lia.
  intros k Hk. assert (k = 0)%nat as -> by lia.
  destruct (lookup_lt_is_Some_2 seq 0 Hlen) as [s0 Hs0].
  exists 1, (-1), s0.
  rewrite !list_lookup_insert_eq by (rewrite length_zeros; lia).
  split_and!; auto; [lia|intros; lia].
Qed.
End LisTables.

(** ** Longest increasing subsequence: the reconstruction *)

Lemma strictly_increasing_snoc (l : list Z) (x : Z) :
  strictly_increasing l = true ->
  (forall y, last l = Some y -> y < x) ->
  strictly_increasing (l ++ [x]) = true.
Proof.
  induction l as [|a l IH]; intros Hl Hlast; [reflexivity|].
  destruct l as [|b l].
  - simpl. rewrite andb_true_r. apply Z.ltb_lt, Hlast. reflexivity.
  - change (strictly_increasing (a :: b :: l))
      with ((a <? b) && strictly_increasing (b :: l)) in Hl.
    apply andb_prop in Hl as [Hab Hl].
    change (strictly_increasing ((a :: b :: l) ++ [x]))
      with ((a <? b) && strictly_increasing ((b :: l) ++ [x])).
    rewrite Hab, IH; auto.
Qed.


Section LisRecover.
Variables seq L P : list Z.
Hypothesis Hentries : forall k, (k < length seq)%nat -> lis_entry seq L P 0 k.

(** Following [prev] from the index [e] ends within [e + 1] iterations;
    what was appended is, read backwards, a strictly increasing
    subsequence of [seq[0..e]] that ends with [seq[e]], of two elements
    or more when the entry of [e] is 2 or more. *)
Lemma lis_recover_chain (e : nat) :
  (e < length seq)%nat ->
  forall (fuel : nat) (lis : list Z), (e < fuel)%nat ->
  exists c se,
    lis_recover fuel seq P lis (Z.of_nat e) = Return (lis ++ c) /\
    seq !! e = Some se /\ head c = Some se /\
    strictly_increasing (reverse c) = true /\
    reverse c `sublist_of` take (S e) seq /\
    (forall le, L !! e = Some le -> 2 <= le -> (2 <= length c)%nat).
Proof.
  induction e as [e IH] using lt_wf_ind. intros He fuel lis Hfuel.
  destruct (Hentries e He) as (le & pe & se & HLe & HPe & Hse & _ & Hprev & _).
  destruct fuel as [|fuel]; [lia|]. cbn [lis_recover].
  destruct (Z.eqb_spec (Z.of_nat e) (-1)) as [?|_]; [lia|].
  rewrite (getitem_nat _ _ _ Hse), (getitem_nat _ _ _ HPe), !bind_Return.
  destruct Hprev as [[-> Hbase]|(p & lp & sp & -> & Hp & HLp & Hsp & Hlt & Hle)].
  - exists [se], se. split_and!; auto.
    + destruct fuel; reflexivity.
    + rewrite (take_S_r _ _ _ Hse). apply sublist_inserts_l. reflexivity.
    + intros le' HLe' Hle'. assert (le' = le) by congruence.
      destruct e; simpl in Hbase; lia.
  - destruct (IH p ltac:(lia) ltac:(lia) fuel (lis ++ [se]) ltac:(lia))
      as (c & sp' & Hrun & Hsp' & Hhead & Hinc & Hsub & _).
    assert (sp' = sp) as -> by congruence.
    exists (se :: c), se. split_and!; auto.
    + rewrite Hrun, <- app_assoc. reflexivity.
    + rewrite reverse_cons. apply strictly_increasing_snoc; [assumption|].
      intros y Hy. rewrite last_reverse, Hhead in Hy. congruence.
    + rewrite reverse_cons, (take_S_r _ _ _ Hse).
      apply sublist_app; [|reflexivity].
      etrans; [exact Hsub|].
      replace (S p) with (S p `min` e)%nat by lia.
      rewrite <- take_take. apply sublist_take.
    + intros _ _ _. destruct c; [discriminate|]. simpl. lia.
Qed.
End LisRecover.

(** On a non-empty sequence [find_lis] returns; the list returned is
    strictly increasing, a subsequence of the input, and is not a
    singleton. *)
Lemma find_lis_nonempty (seq : list Z) :
  seq <> [] ->
  exists lis,
    find_lis seq = Return lis /\
    strictly_increasing lis = true /\
    lis `sublist_of` seq /\
    (lis = [] \/ (2 <= length lis)%nat).
Proof.
  intros Hne.
  destruct (lis_tables_inv seq Hne)
    as ([L P ml b] & Htab & _ & _ & Hentries & _ & Hbest).
  cbn [st_length st_prev st_max_length st_best_seq_end] in *.
  unfold find_lis, find_lis_fuel. rewrite Htab, bind_Return.
  cbn [st_length st_prev st_max_length st_best_seq_end].
  destruct Hbest as [->|(e & le & -> & He & HLe & Hle)].
  - exists []. split_and!; auto.
    + destruct (length seq); reflexivity.
    + apply sublist_nil_l.
  - destruct (lis_recover_chain seq L P Hentries e He (length seq) [] He)
      as (c & se & Hrun & _ & _ & Hinc & Hsub & Hlen).
    exists (reverse c). rewrite Hrun, bind_Return. split_and!; auto.
    + etrans; [exact Hsub|apply sublist_take].
    + right. rewrite length_reverse. eauto.
Qed.


(** ** The enumeration of increasing subsequences *)

Lemma subsequences_sublist {A : Type} (l s : list A) :
  s ∈ subsequences l <-> s `sublist_of` l.
Proof.
  revert s. induction l as [|a l IH]; intros s; simpl.
  - rewrite sublist_nil_r. apply list_elem_of_singleton.
  - rewrite elem_of_app, list_elem_of_fmap, sublist_cons_r, IH. split.
    + intros [(s' & -> & Hs')|Hs]; [right|left; assumption].
      exists s'. split; [reflexivity|]. apply IH, Hs'.
    + intros [Hs|(s' & -> & Hs')]; [right; assumption|left].
      exists s'. split; [reflexivity|]. apply IH, Hs'.
Qed.

Lemma foldr_max_ge (l : list nat) (x : nat) :
  x ∈ l -> (x <= foldr Nat.max O l)%nat.
Proof.
  induction l as [|a l IH]; intros Hx; [inversion Hx|].
  apply elem_of_cons in Hx as [->|Hx]; simpl; [lia|].
  specialize (IH Hx). lia.
Qed.

Lemma foldr_max_in (l : list nat) :
  foldr Nat.max O l = O \/ foldr Nat.max O l ∈ l.
Proof.
  induction l as [|a l IH]; simpl; [left; reflexivity|].
  destruct (Nat.max_spec a (foldr Nat.max O l)) as [[Hlt ->]|[Hle ->]].
  - destruct IH as [IH|IH]; [lia|]. right. apply elem_of_cons. auto.
  - right. apply elem_of_cons. auto.
Qed.

(** [max_increasing_length] bounds the length of every strictly increasing
    subsequence, and one of them has that length. *)
Lemma max_increasing_length_bound (l s : list Z) :
  s `sublist_of` l -> strictly_increasing s = true ->
  (length s <= max_increasing_length l)%nat.
Proof.
  intros Hsub Hinc. apply foldr_max_ge, list_elem_of_fmap.
  exists s. split; [reflexivity|].
  apply list_elem_of_filter. split; [rewrite Hinc; exact I|].
  apply subsequences_sublist, Hsub.
Qed.

Lemma max_increasing_length_attained (l : list Z) :
  exists s,
    s `sublist_of` l /\ strictly_increasing s = true /\
    length s = max_increasing_length l.
Proof.
  unfold max_increasing_length.
  destruct (foldr_max_in
              (map length (filter (fun s => Is_true (strictly_increasing s))
                                  (subsequences l)))) as [H0|Hin].
  - exists []. rewrite H0. split_and!; auto. apply sublist_nil_l.
  - apply list_elem_of_fmap in Hin as (s & Hlen & Hs).
    apply list_elem_of_filter in Hs as [Hinc Hs].
    exists s. split_and!; auto.
    + apply subsequences_sublist, Hs.
    + apply Is_true_true, Hinc.
Qed.

(** X6: what [find_lis] returns is never longer than the longest strictly
    increasing subsequence. *)
Lemma find_lis_length_le (seq : list Z) :
  seq <> [] ->
  exists lis,
    find_lis seq = Return lis /\ (length lis <= max_increasing_length seq)%nat.
Proof.
  intros Hne. destruct (find_lis_nonempty seq Hne) as (lis & Hrun & Hinc & Hsub & _).
  exists lis. split; [assumption|]. apply max_increasing_length_bound; assumption.
Qed.

(** C8: on every non-empty input sequence [find_lis] returns a list that is
    strictly increasing (each element strictly below the next, so equal
    values are never chained) and is a subsequence of the input, its
    elements in the order they have there. *)
Theorem find_lis_increasing_subsequence (seq : list Z) :
  seq <> [] ->
  exists lis,
    find_lis seq = Return lis /\
    strictly_increasing lis = true /\
    lis `sublist_of` seq.
Proof.
  intros Hne. destruct (find_lis_nonempty seq Hne) as (lis & ? & ? & ? & _).
  exists lis. auto.
Qed.

(** C10: on every non-empty input sequence the list [find_lis] returns
    never has exactly one element: it is empty or has two elements or
    more. *)
Theorem find_lis_never_singleton (seq : list Z) :
  seq <> [] ->
  exists lis,
    find_lis seq = Return lis /\ (lis = [] \/ (2 <= length lis)%nat).
Proof.
  intros Hne. destruct (find_lis_nonempty seq Hne) as (lis & ? & _ & _ & ?).
  exists lis. auto.
Qed.

(** ** Knapsack: the table *)

Lemma getcell_nat (S : list (list Z)) (k x : nat) (a : Z) :
  cell S k x = Some a -> getcell S (Z.of_nat k) (Z.of_nat x) = Return a.
Proof.
  unfold cell, getcell. destruct (S !! k) as [row|] eqn:Hrow; [|discriminate].
  intros Hx. rewrite (getitem_nat _ _ _ Hrow), bind_Return.
  apply getitem_nat, Hx.
Qed.

Lemma setcell_nat (S : list (list Z)) (k x : nat) (val : Z) (row : list Z) :
  S !! k = Some row -> (x < length row)%nat ->
  setcell S (Z.of_nat k) (Z.of_nat x) val = Return (<[k := <[x := val]> row]> S).
Proof.
  intros Hrow Hx. unfold setcell.
  rewrite (getitem_nat _ _ _ Hrow), bind_Return.
  rewrite setitem_nat, bind_Return by assumption.
  apply setitem_nat. eapply lookup_lt_Some, Hrow.
Qed.

Lemma cell_insert (S : list (list Z)) (k0 x0 : nat) (val : Z) (row : list Z)
    (k x : nat) :
  S !! k0 = Some row -> (x0 < length row)%nat ->
  cell (<[k0 := <[x0 := val]> row]> S) k x =
  if decide (k = k0 /\ x = x0) then Some val else cell S k x.
Proof.
  intros Hrow Hx. pose proof (lookup_lt_Some _ _ _ Hrow) as Hk. unfold cell.
  destruct (decide (k = k0)) as [->|Hne].
  - rewrite list_lookup_insert_eq, Hrow by assumption.
    destruct (decide (x = x0)) as [->|Hnx].
    + rewrite list_lookup_insert_eq by assumption.
      rewrite decide_True by auto. reflexivity.
    + rewrite list_lookup_insert_ne by auto.
      rewrite decide_False by tauto. reflexivity.
  - rewrite list_lookup_insert_ne by auto.
    rewrite decide_False by tauto. reflexivity.
Qed.

Lemma rows_insert (S : list (list Z)) (Wn k0 x0 : nat) (val : Z) (row : list Z) :
  S !! k0 = Some row ->
  (forall k r, S !! k = Some r -> length r = Wn) ->
  forall k r, <[k0 := <[x0 := val]> row]> S !! k = Some r -> length r = Wn.
Proof.
  intros Hrow Hrows k r. pose proof (lookup_lt_Some _ _ _ Hrow) as Hk.
  destruct (decide (k = k0)) as [->|Hne].
  - rewrite list_lookup_insert_eq by assumption. intros [= <-].
    rewrite length_insert. eauto.
  - rewrite list_lookup_insert_ne by auto. eauto.
Qed.

Lemma cell_is_Some (S : list (list Z)) (Wn k x : nat) :
  (forall k r, S !! k = Some r -> length r = Wn) ->
  (k < length S)%nat -> (x < Wn)%nat -> is_Some (cell S k x).
Proof.
  intros Hrows Hk Hx. unfold cell.
  destruct (lookup_lt_is_Some_2 S k Hk) as [row Hrow]. rewrite Hrow.
  apply lookup_lt_is_Some_2. rewrite (Hrows _ _ Hrow). assumption.
Qed.

Section KnapsackTable.
Variables (w v : list Z) (Wn : nat).
Hypothesis Hlen : (length v <= length w)%nat.
Hypothesis Hweights :
  forall k wk, (1 <= k < length v)%nat -> w !! k = Some wk -> 0 <= wk.

(** Writing the cell [(k0, x0)] keeps the cells filled before it. *)
Lemma knap_inv_write (T T' : list (list Z)) (x0 k0 : nat) (val wk vk above : Z) :
  (1 <= k0 < length v)%nat -> (1 <= x0 < Wn)%nat ->
  knap_inv w v Wn T x0 k0 ->
  length T' = length T ->
  (forall k r, T' !! k = Some r -> length r = Wn) ->
  (forall k x,
      cell T' k x = if decide (k = k0 /\ x = x0) then Some val else cell T k x) ->
  w !! k0 = Some wk -> v !! k0 = Some vk ->
  cell T (k0 - 1) x0 = Some above ->
  (Z.of_nat x0 <= wk -> val = above) ->
  (wk < Z.of_nat x0 ->
   exists diag,
     cell T (k0 - 1) (Z.to_nat (Z.of_nat x0 - wk)) = Some diag /\
     val = if diag + vk >? above then diag + vk else above) ->
  knap_inv w v Wn T' x0 (S k0).
Proof.
  intros Hk0 Hx0 (HlenT & Hrows & Hcells & Hzero) HlenT' Hrows' Hcell' Hwk Hvk
    Habove Hskip Htake.
  split_and!; [congruence|assumption| |].
  2:{ intros k x a Hkx. rewrite Hcell', decide_False by lia. apply Hzero, Hkx. }
  intros k x Hk Hx Hdone.
  destruct (decide (k = k0 /\ x = x0)) as [[-> ->]|Hother].
  - exists wk, vk, above, val.
    rewrite (Hcell' (k0 - 1)%nat x0), (Hcell' k0 x0).
    rewrite decide_False, decide_True by (auto; lia).
    split_and!; auto.
    intros Hlt. destruct (Htake Hlt) as (diag & Hdiag & Hval).
    exists diag. rewrite Hcell', decide_False by lia. auto.
  - destruct (Hcells k x Hk Hx ltac:(lia))
      as (wk' & vk' & above' & cur' & Hwk' & Hvk' & Habove' & Hcur' & Hskip' & Htake').
    pose proof (Hweights k wk' Hk Hwk') as Hwk0.
    exists wk', vk', above', cur'.
    rewrite !Hcell', !decide_False by lia.
    split_and!; auto.
Qed.

(** The body of [for k in range(1, n)] at the row [k0] of the column
    [x0]. *)
Lemma knapsack_cell_step (T : list (list Z)) (x0 k0 : nat) :
  (1 <= k0 < length v)%nat -> (1 <= x0 < Wn)%nat ->
  knap_inv w v Wn T x0 k0 ->
  exists T',
    knapsack_cell w v (Z.of_nat x0) T (Z.of_nat k0) = Return T' /\
    knap_inv w v Wn T' x0 (S k0).
Proof.
  intros Hk0 Hx0 Hinv. pose proof Hinv as (HlenT & Hrows & _).
  destruct (lookup_lt_is_Some_2 T k0 ltac:(lia)) as [row Hrow].
  pose proof (Hrows _ _ Hrow) as Hrowlen.
  destruct (cell_is_Some T Wn (k0 - 1) x0 Hrows ltac:(lia) ltac:(lia))
    as [above Habove].
  destruct (lookup_lt_is_Some_2 w k0 ltac:(lia)) as [wk Hwk].
  destruct (lookup_lt_is_Some_2 v k0 ltac:(lia)) as [vk Hvk].
  pose proof (Hweights k0 wk Hk0 Hwk) as Hwk0.
  set (T1 := <[k0 := <[x0 := above]> row]> T).
  assert (Hcell1 : forall k x,
             cell T1 k x = if decide (k = k0 /\ x = x0) then Some above
                           else cell T k x).
  { intros k x. apply cell_insert; [assumption|lia]. }
  assert (Hrows1 : forall k r, T1 !! k = Some r -> length r = Wn).
  { apply rows_insert; assumption. }
  assert (HlenT1 : length T1 = length T) by apply length_insert.
  unfold knapsack_cell.
  replace (Z.of_nat k0 - 1) with (Z.of_nat (k0 - 1)) by lia.
  rewrite (getcell_nat _ _ _ _ Habove), bind_Return.
  rewrite (setcell_nat _ _ _ _ _ Hrow), bind_Return by lia. fold T1.
  rewrite (getitem_nat _ _ _ Hwk), !bind_Return.
  destruct (Z.ltb_spec wk (Z.of_nat x0)) as [Hfit|Hnofit].
  - set (xd := Z.to_nat (Z.of_nat x0 - wk)).
    replace (Z.of_nat x0 - wk) with (Z.of_nat xd) by (unfold xd; lia).
    destruct (cell_is_Some T Wn (k0 - 1) xd Hrows ltac:(lia) ltac:(unfold xd; lia))
      as [diag Hdiag].
    assert (Hdiag1 : cell T1 (k0 - 1) xd = Some diag).
    { rewrite Hcell1, decide_False by lia. assumption. }
    assert (Hcur1 : cell T1 k0 x0 = Some above).
    { rewrite Hcell1, decide_True by auto. reflexivity. }
    rewrite (getcell_nat _ _ _ _ Hdiag1), (getitem_nat _ _ _ Hvk),
      (getcell_nat _ _ _ _ Hcur1), !bind_Return.
    destruct (diag + vk >? above) eqn:Hbetter.
    + assert (Hrow1 : T1 !! k0 = Some (<[x0 := above]> row)).
      { apply list_lookup_insert_eq. lia. }
      rewrite (setcell_nat _ _ _ _ _ Hrow1) by (rewrite length_insert; lia).
      eexists. split; [reflexivity|].
      apply (knap_inv_write T _ x0 k0 (diag + vk) wk vk above); auto.
      * rewrite length_insert. assumption.
      * apply rows_insert; assumption.
      * intros k x. rewrite cell_insert by (rewrite ?length_insert; auto; lia).
        rewrite Hcell1. destruct (decide (k = k0 /\ x = x0)); reflexivity.
      * lia.
      * intros _. exists diag. fold xd. rewrite Hbetter. auto.
    + eexists. split; [reflexivity|].
      apply (knap_inv_write T _ x0 k0 above wk vk above); auto.
      intros _. exists diag. fold xd. rewrite Hbetter. auto.
  - eexists. split; [reflexivity|].
    apply (knap_inv_write T _ x0 k0 above wk vk above); auto. lia.
Qed.

(** The loop [for k in range(1, n)] run up to the row [m]. *)
Lemma knapsack_rows (T : list (list Z)) (x0 : nat) :
  (1 <= x0 < Wn)%nat -> knap_inv w v Wn T x0 1 ->
  forall m, (1 <= m <= length v)%nat ->
  exists T',
    foldM (knapsack_cell w v (Z.of_nat x0)) T (range2 1 (Z.of_nat m)) = Return T' /\
    knap_inv w v Wn T' x0 m.
Proof.
  intros Hx0 Hinit m [Hm1 Hmn]. induction m as [|m IH]; [lia|].
  destruct (decide (m = 0)%nat) as [->|Hm].
  - eexists. split; [reflexivity|assumption].
  - destruct IH as (T1 & Hrun & Hinv); [lia..|].
    replace (Z.of_nat (S m)) with (Z.of_nat m + 1) by lia.
    rewrite range2_snoc by lia. rewrite (foldM_snoc _ _ _ _ _ Hrun).
    apply knapsack_cell_step; auto; lia.
Qed.

(** A whole column. *)
Lemma knapsack_column (T : list (list Z)) (x0 : nat) :
  (1 <= x0 < Wn)%nat -> knap_inv w v Wn T x0 1 ->
  exists T',
    foldM (knapsack_cell w v (Z.of_nat x0)) T (range2 1 (len v)) = Return T' /\
    knap_inv w v Wn T' (S x0) 1.
Proof.
  intros Hx0 Hinit. unfold len.
  destruct (decide (length v = 0)%nat) as [Hn|Hn].
  - rewrite Hn. exists T. split; [reflexivity|].
    destruct Hinit as (? & ? & _ & ?). split_and!; auto. intros; lia.
  - destruct (knapsack_rows T x0 Hx0 Hinit (length v) ltac:(lia))
      as (T' & Hrun & HlenT & Hrows & Hcells & Hzero).
    exists T'. split; [assumption|]. split_and!; auto.
    intros k x Hk Hx Hdone. apply Hcells; auto. lia.
Qed.

(** The loop [for x in range(1, W)] run up to the column [c]. *)
Lemma knapsack_columns (T : list (list Z)) :
  knap_inv w v Wn T 1 1 ->
  forall c, (1 <= c <= Wn)%nat ->
  exists T',
    foldM (fun T x => foldM (knapsack_cell w v x) T (range2 1 (len v))) T
          (range2 1 (Z.of_nat c)) = Return T' /\
    knap_inv w v Wn T' c 1.
Proof.
  intros Hinit c [Hc1 Hcn]. induction c as [|c IH]; [lia|].
  destruct (decide (c = 0)%nat) as [->|Hc].
  - eexists. split; [reflexivity|assumption].
  - destruct IH as (T1 & Hrun & Hinv); [lia..|].
    replace (Z.of_nat (S c)) with (Z.of_nat c + 1) by lia.
    rewrite range2_snoc by lia. rewrite (foldM_snoc _ _ _ _ _ Hrun).
    apply knapsack_column; auto; lia.
Qed.
End KnapsackTable.

Lemma lookup_zeros (n : Z) (k : nat) (a : Z) :
  map (fun _ : Z => 0) (range n) !! k = Some a -> a = 0.
Proof.
  rewrite list_lookup_fmap. destruct (range n !! k); simpl; congruence.
Qed.

(** With at least as many weights as values and no negative weight among
    the items [1..n-1], [knapsack] returns a table of [n] rows and [W]
    columns all of whose cells outside row 0 and column 0 hold what the
    loop body computes from the row above. *)
Lemma knapsack_inv (W : Z) (w v : list Z) :
  (length v <= length w)%nat ->
  (forall k wk, (1 <= k < length v)%nat -> w !! k = Some wk -> 0 <= wk) ->
  exists T,
    knapsack W w v = Return T /\
    knap_inv w v (Z.to_nat W) T (Z.to_nat W) 1.
Proof.
  intros Hlen Hweights. unfold knapsack.
  set (T0 := map (fun _ : Z => map (fun _ : Z => 0) (range W)) (range (len v))).
  assert (HlenT0 : length T0 = length v).
  { unfold T0, range, len. rewrite length_map, range2_length. lia. }
  assert (Hrows0 : forall k r, T0 !! k = Some r -> length r = Z.to_nat W).
  { intros k r. unfold T0. rewrite list_lookup_fmap.
    destruct (range (len v) !! k); simpl; [|discriminate].
    intros [= <-]. apply length_zeros. }
  assert (Hzero0 : forall k x a, (k = 0 \/ x = 0)%nat -> cell T0 k x = Some a -> a = 0).
  { intros k x a _. unfold cell, T0. rewrite list_lookup_fmap.
    destruct (range (len v) !! k); simpl; [|discriminate]. apply lookup_zeros. }
  destruct (decide (Z.to_nat W = 0)%nat) as [HW|HW].
  - rewrite (range2_nil 1 W) by lia. exists T0. split; [reflexivity|].
    split_and!; auto. intros; lia.
  - destruct (knapsack_columns w v (Z.to_nat W) Hlen Hweights T0)
      with (c := Z.to_nat W) as (T & Hrun & Hinv); [|lia|].
    + split_and!; auto. intros; lia.
    + rewrite Z2Nat.id in Hrun by lia. exists T. auto.
Qed.

(** ** Knapsack: what the table holds *)

Lemma foldr_Zmax_nonneg (l : list Z) : 0 <= foldr Z.max 0 l.
Proof. induction l as [|a l IH]; simpl; lia. Qed.

Lemma foldr_Zmax_ge (l : list Z) (x : Z) : x ∈ l -> x <= foldr Z.max 0 l.
Proof.
  induction l as [|a l IH]; intros Hx; [inversion Hx|].
  apply elem_of_cons in Hx as [->|Hx]; simpl; [lia|].
  specialize (IH Hx). lia.
Qed.

Lemma foldr_Zmax_in (l : list Z) :
  foldr Z.max 0 l = 0 \/ foldr Z.max 0 l ∈ l.
Proof.
  induction l as [|a l IH]; simpl; [left; reflexivity|].
  destruct (Z.max_spec a (foldr Z.max 0 l)) as [[Hlt ->]|[Hle ->]].
  - destruct IH as [IH|IH]; [|right; apply elem_of_cons; auto].
    pose proof (foldr_Zmax_nonneg l). lia.
  - right. apply elem_of_cons. auto.
Qed.

(** [optimum] is the greatest value of a subset that fits. *)
Lemma optimum_nonneg (cap : Z) (items : list (Z * Z)) : 0 <= optimum cap items.
Proof. apply foldr_Zmax_nonneg. Qed.

Lemma optimum_ge (cap : Z) (items s : list (Z * Z)) :
  s `sublist_of` items -> item_weight s <= cap ->
  item_value s <= optimum cap items.
Proof.
  intros Hsub Hfit. apply foldr_Zmax_ge, list_elem_of_fmap.
  exists s. split; [reflexivity|].
  apply list_elem_of_filter. split; [assumption|].
  apply subsequences_sublist, Hsub.
Qed.

Lemma optimum_attained (cap : Z) (items : list (Z * Z)) :
  optimum cap items = 0 \/
  exists s, s `sublist_of` items /\ item_weight s <= cap /\
            item_value s = optimum cap items.
Proof.
  unfold optimum.
  destruct (foldr_Zmax_in
              (map item_value (filter (fun s => item_weight s <= cap)
                                      (subsequences items)))) as [H0|Hin];
    [left; assumption|right].
  apply list_elem_of_fmap in Hin as (s & Hval & Hs).
  apply list_elem_of_filter in Hs as [Hfit Hs].
  exists s. split_and!; auto. apply subsequences_sublist, Hs.
Qed.

Lemma total_app (a b : list Z) : total (a ++ b) = total a + total b.
Proof. unfold total. induction a as [|x a IH]; simpl; lia. Qed.

Lemma item_weight_snoc (s : list (Z * Z)) (wk vk : Z) :
  item_weight (s ++ [(wk, vk)]) = item_weight s + wk.
Proof. unfold item_weight. rewrite map_app, total_app. simpl. lia. Qed.

Lemma item_value_snoc (s : list (Z * Z)) (wk vk : Z) :
  item_value (s ++ [(wk, vk)]) = item_value s + vk.
Proof. unfold item_value. rewrite map_app, total_app. simpl. lia. Qed.

Lemma item_weight_nonneg (items s : list (Z * Z)) :
  Forall (fun it => 0 <= fst it) items -> s `sublist_of` items ->
  0 <= item_weight s.
Proof.
  intros Hitems Hsub. induction Hsub as [|x l1 l2 _ IH|x l1 l2 _ IH].
  - unfold item_weight, total. simpl. lia.
  - apply Forall_cons in Hitems as [Hx Hitems]. specialize (IH Hitems).
    unfold item_weight, total in *. simpl. lia.
  - apply Forall_cons in Hitems as [_ Hitems]. auto.
Qed.

(** The subsets of [items ++ [item]] are those of [items], with or without
    [item]. *)
Lemma sublist_snoc_inv {A : Type} (s items : list A) (a : A) :
  s `sublist_of` items ++ [a] ->
  s `sublist_of` items \/ exists s', s = s' ++ [a] /\ s' `sublist_of` items.
Proof.
  intros (s1 & s2 & -> & Hs1 & Hs2)%sublist_app_r.
  apply sublist_cons_r in Hs2 as [Hs2|(s2' & -> & Hs2)].
  - apply sublist_nil_r in Hs2 as ->. left. rewrite app_nil_r. assumption.
  - apply sublist_nil_r in Hs2 as ->. right. exists s1. auto.
Qed.

(** One more item: it is taken when it fits and that is better. *)
Lemma optimum_snoc (cap wk vk : Z) (items : list (Z * Z)) :
  Forall (fun it => 0 <= fst it) items -> 0 <= wk ->
  optimum cap (items ++ [(wk, vk)]) =
  if wk <=? cap
  then Z.max (optimum cap items) (optimum (cap - wk) items + vk)
  else optimum cap items.
Proof.
  intros Hitems Hwk. apply Z.le_antisymm.
  - destruct (optimum_attained cap (items ++ [(wk, vk)]))
      as [->|(s & Hsub & Hfit & <-)].
    + pose proof (optimum_nonneg cap items). destruct (wk <=? cap); lia.
    + apply sublist_snoc_inv in Hsub as [Hsub|(s' & -> & Hsub)].
      * pose proof (optimum_ge cap items s Hsub Hfit).
        destruct (wk <=? cap); lia.
      * rewrite item_weight_snoc in Hfit. rewrite item_value_snoc.
        pose proof (item_weight_nonneg items s' Hitems Hsub).
        pose proof (optimum_ge (cap - wk) items s' Hsub ltac:(lia)).
        destruct (Z.leb_spec wk cap); lia.
  - assert (Hskip : optimum cap items <= optimum cap (items ++ [(wk, vk)])).
    { destruct (optimum_attained cap items) as [->|(s & Hsub & Hfit & <-)];
        [apply optimum_nonneg|].
      apply optimum_ge; [|assumption]. apply sublist_inserts_r, Hsub. }
    destruct (Z.leb_spec wk cap) as [Hle|Hgt]; [|assumption].
    apply Z.max_lub; [assumption|].
    destruct (optimum_attained (cap - wk) items) as [->|(s & Hsub & Hfit & <-)].
    + assert (Hone : item_value [(wk, vk)] <= optimum cap (items ++ [(wk, vk)])).
      { apply optimum_ge; [apply sublist_inserts_l; reflexivity|].
        unfold item_weight, total. simpl. lia. }
      unfold item_value, total in Hone. simpl in Hone. lia.
    + rewrite <- item_value_snoc with (wk := wk). apply optimum_ge.
      * apply sublist_app; [assumption|reflexivity].
      * rewrite item_weight_snoc. lia.
Qed.

Lemma optimum_nil (cap : Z) : optimum cap [] = 0.
Proof.
  destruct (optimum_attained cap []) as [H|(s & Hsub & _ & <-)]; [assumption|].
  apply sublist_nil_r in Hsub as ->. reflexivity.
Qed.

Lemma optimum_no_capacity (cap : Z) (items : list (Z * Z)) :
  Forall (fun it => 0 <= fst it) items -> cap < 0 -> optimum cap items = 0.
Proof.
  intros Hitems Hcap.
  destruct (optimum_attained cap items) as [H|(s & Hsub & Hfit & _)];
    [assumption|].
  pose proof (item_weight_nonneg items s Hitems Hsub). lia.
Qed.

(** In the finished table the cell [(k, x)] is the optimum over the items
    [1..k] for a total weight of at most [x - 1]. *)
Lemma knapsack_table_value (w v : list Z) (Wn : nat) (T : list (list Z)) :
  (length v <= length w)%nat ->
  (forall k wk, (1 <= k < length v)%nat -> w !! k = Some wk -> 0 <= wk) ->
  knap_inv w v Wn T Wn 1 ->
  forall k x,
    (k < length v)%nat -> (x < Wn)%nat ->
    cell T k x = Some (optimum (Z.of_nat x - 1) (take k (drop 1 (zip w v)))).
Proof.
  intros Hlen Hweights (HlenT & Hrows & Hcells & Hzero).
  assert (Hnonneg : forall k, (k < length v)%nat ->
             Forall (fun it => 0 <= fst it) (take k (drop 1 (zip w v)))).
  { intros k Hk. apply Forall_lookup. intros i [wi vi] Hi.
    apply lookup_take_Some in Hi as [Hi Hik].
    rewrite lookup_drop in Hi. apply lookup_zip_Some in Hi as [Hwi Hvi].
    apply (Hweights (1 + i)%nat); [|assumption].
    pose proof (lookup_lt_Some _ _ _ Hvi). lia. }
  induction k as [|k IH]; intros x Hk Hx.
  - destruct (cell_is_Some T Wn 0 x Hrows ltac:(lia) Hx) as [a Ha].
    rewrite Ha, (Hzero 0%nat x a (or_introl eq_refl) Ha).
    rewrite take_0, optimum_nil. reflexivity.
  - destruct (lookup_lt_is_Some_2 w (S k) ltac:(lia)) as [wk Hwk].
    destruct (lookup_lt_is_Some_2 v (S k) ltac:(lia)) as [vk Hvk].
    pose proof (Hweights (S k) wk ltac:(lia) Hwk) as Hwk0.
    assert (Hitem : drop 1 (zip w v) !! k = Some (wk, vk)).
    { rewrite lookup_drop. apply lookup_zip_Some. auto. }
    rewrite (take_S_r _ _ _ Hitem).
    destruct (decide (x = 0)%nat) as [->|Hx0].
    + destruct (cell_is_Some T Wn (S k) 0 Hrows ltac:(lia) Hx) as [a Ha].
      rewrite Ha, (Hzero (S k) 0%nat a (or_intror eq_refl) Ha).
      rewrite optimum_no_capacity; [reflexivity| |lia].
      rewrite <- (take_S_r _ _ _ Hitem). apply Hnonneg, Hk.
    + destruct (Hcells (S k) x ltac:(lia) ltac:(lia) ltac:(lia))
        as (wk' & vk' & above & cur & Hwk' & Hvk' & Habove & Hcur & Hskip & Htake).
      assert (wk' = wk) as -> by congruence.
      assert (vk' = vk) as -> by congruence.
      replace (S k - 1)%nat with k in * by lia.
      rewrite (IH x ltac:(lia) Hx) in Habove. injection Habove as <-.
      rewrite Hcur, optimum_snoc by (auto; apply Hnonneg; lia). f_equal.
      destruct (Z.leb_spec wk (Z.of_nat x - 1)) as [Hfit|Hnofit].
      * destruct (Htake ltac:(lia)) as (diag & Hdiag & ->).
        rewrite (IH (Z.to_nat (Z.of_nat x - wk)) ltac:(lia) ltac:(lia)) in Hdiag.
        injection Hdiag as <-.
        replace (Z.of_nat (Z.to_nat (Z.of_nat x - wk)) - 1)
          with (Z.of_nat x - 1 - wk) by lia.
        destruct (Z.gtb_spec
                    (optimum (Z.of_nat x - 1 - wk) (take k (drop 1 (zip w v))) + vk)
                    (optimum (Z.of_nat x - 1) (take k (drop 1 (zip w v))))); lia.
      * apply Hskip. lia.
Qed.

(** X11: with at least one row and one column, the bottom-right entry of the
    table is the optimum over the items after the first for a total weight
    of at most [W - 2]. *)
Lemma knapsack_corner_value (W : Z) (w v : list Z) :
  (length v <= length w)%nat ->
  (forall k wk, (1 <= k < length v)%nat -> w !! k = Some wk -> 0 <= wk) ->
  1 <= len v -> 1 <= W ->
  exists T,
    knapsack W w v = Return T /\
    getcell T (len v - 1) (W - 1) = Return (optimum (W - 2) (drop 1 (zip w v))).
Proof.
  intros Hlen Hweights Hn HW. unfold len in *.
  destruct (knapsack_inv W w v Hlen Hweights) as (T & Hrun & Hinv).
  exists T. split; [assumption|].
  pose proof (knapsack_table_value w v (Z.to_nat W) T Hlen Hweights Hinv
                (length v - 1)%nat (Z.to_nat W - 1)%nat ltac:(lia) ltac:(lia))
    as Hcell.
  rewrite take_ge in Hcell by (rewrite length_drop, length_zip; lia).
  apply getcell_nat in Hcell.
  replace (Z.of_nat (length v - 1)) with (Z.of_nat (length v) - 1) in Hcell by lia.
  replace (Z.of_nat (Z.to_nat W - 1)) with (W - 1) in Hcell by lia.
  replace (W - 1 - 1) with (W - 2) in Hcell by lia. exact Hcell.
Qed.

(** C5: in the table [knapsack] returns, every cell [(k, x)] with [k >= 1]
    and [x >= 1] takes item [k] in only when its weight is strictly below
    [x]: with a weight equal to [x] (or above) the cell is the one above it,
    [S[k-1][x]], and with a weight below [x] it is the larger of that and
    [S[k-1][x - w[k]] + v[k]]. *)
Theorem knapsack_strict_capacity (W : Z) (w v : list Z) :
  (length v <= length w)%nat ->
  Forall (fun wk => 0 <= wk) w ->
  exists T,
    knapsack W w v = Return T /\
    forall k x,
      1 <= k < len v -> 1 <= x < W ->
      exists wk vk above cur,
        getitem w k = Return wk /\ getitem v k = Return vk /\
        getcell T (k - 1) x = Return above /\ getcell T k x = Return cur /\
        (x <= wk -> cur = above) /\
        (wk < x ->
         exists diag,
           getcell T (k - 1) (x - wk) = Return diag /\
           cur = if diag + vk >? above then diag + vk else above).
Proof.
  intros Hlen Hw.
  destruct (knapsack_inv W w v Hlen) as (T & Hrun & _ & _ & Hcells & _).
  { intros k wk _ Hwk. exact (proj1 (Forall_lookup _ _) Hw k wk Hwk). }
  exists T. split; [assumption|]. intros k x Hk Hx. unfold len in Hk.
  destruct (Hcells (Z.to_nat k) (Z.to_nat x) ltac:(lia) ltac:(lia) ltac:(lia))
    as (wk & vk & above & cur & Hwk & Hvk & Habove & Hcur & Hskip & Htake).
  exists wk, vk, above, cur.
  assert (0 <= wk) by exact (proj1 (Forall_lookup _ _) Hw _ _ Hwk).
  apply getitem_nat in Hwk, Hvk. apply getcell_nat in Habove, Hcur.
  replace (Z.of_nat (Z.to_nat k - 1)) with (k - 1) in Habove by lia.
  rewrite !Z2Nat.id in * by lia.
  split_and!; auto. intros Hlt.
  destruct (Htake Hlt) as (diag & Hdiag & Hval). exists diag.
  apply getcell_nat in Hdiag.
  replace (Z.of_nat (Z.to_nat k - 1)) with (k - 1) in Hdiag by lia.
  rewrite Z2Nat.id in Hdiag by lia. auto.
Qed.

Lemma map_const {A B : Type} (c : B) (l : list A) :
  map (fun _ => c) l = replicate (length l) c.
Proof. induction l as [|a l IH]; simpl; [reflexivity|]. rewrite IH. reflexivity. Qed.

Lemma knapsack_negative_capacity (W : Z) (w v : list Z) :
  W < 0 -> knapsack W w v = Return (replicate (length v) []).
Proof.
  intros HW. unfold knapsack. rewrite (range2_nil 1 W) by lia.
  unfold range at 1. rewrite (range2_nil 0 W) by lia. simpl.
  rewrite map_const. unfold range, len. rewrite range2_length.
  do 2 f_equal. lia.
Qed.

(** ** Concrete runs, tie-breaking and the absence of input checks *)

(** C1: the length of what [find_lis] returns is not always the greatest
    length of a strictly increasing subsequence.  On [[5]] and on
    [[5,4,3,2,1]] it returns the empty list, where that length is 1, and on
    [[10,11,1,2,3]] it returns [[10,11]], where [[1,2,3]] is longer. *)
Theorem find_lis_length_mismatch :
  (find_lis [5] = Return [] /\ max_increasing_length [5] = 1%nat) /\
  (find_lis [5; 4; 3; 2; 1] = Return [] /\
   max_increasing_length [5; 4; 3; 2; 1] = 1%nat) /\
  (find_lis [10; 11; 1; 2; 3] = Return [10; 11] /\
   max_increasing_length [10; 11; 1; 2; 3] = 3%nat).
Proof. repeat split; vm_compute; reflexivity. Qed.

(** C2: on the empty sequence [find_lis] raises [IndexError] (at
    [prev[0] = -1]), whatever bound its [while] loop is given. *)
Theorem find_lis_empty_raises :
  find_lis [] = Raise IndexError /\
  forall fuel, find_lis_fuel fuel [] = Raise IndexError.
Proof. split; [reflexivity|]. intros fuel. reflexivity. Qed.

(** C3: the bottom-right entry of the table is not always the optimum over
    all items at capacity [W].  With [W = 2] and one item of weight 1 and
    value 10 (after the boundary item) the entry is 0 and the optimum 10;
    with [W = 15] and items of weights 9 and 6, values 45 and 77, the entry
    is 77 and the optimum 122. *)
Theorem knapsack_corner_not_optimum :
  (exists T, knapsack 2 [0; 1] [0; 10] = Return T /\ getcell T 1 1 = Return 0) /\
  knapsack_optimum 2 [0; 1] [0; 10] = 10 /\
  (exists T, knapsack 15 [0; 9; 6] [0; 45; 77] = Return T /\
             getcell T 2 14 = Return 77) /\
  knapsack_optimum 15 [0; 9; 6] [0; 45; 77] = 122.
Proof.
  split_and!.
  - eexists. split; vm_compute; reflexivity.
  - vm_compute. reflexivity.
  - eexists. split; vm_compute; reflexivity.
  - vm_compute. reflexivity.
Qed.

(** C4, as the claim states it, fails: [find_lis] does not return
    [[10,22,33,50,60,80]] on [[10,22,9,33,21,50,41,60,80]]. *)
Lemma find_lis_example_not_first_index :
  find_lis [10; 22; 9; 33; 21; 50; 41; 60; 80] <> Return [10; 22; 33; 50; 60; 80].
Proof. vm_compute. discriminate. Qed.

(** C4, amended: [find_lis [10,22,9,33,21,50,41,60,80]] returns
    [[10,22,33,41,60,80]]; and in the tables of any non-empty sequence,
    whenever an index [i] has a candidate [j < i] with [seq[j] < seq[i]],
    [prev[i]] is an index [p < i] with [seq[p] < seq[i]] and
    [length[i] = length[p] + 1], no candidate gives more than
    [length[i]], and every candidate that gives as much has an index at
    most [p]: the scan goes down from [i - 1] and only a strict improvement
    replaces the predecessor, so the largest such index is kept. *)
Theorem lis_tie_break_largest_index :
  find_lis [10; 22; 9; 33; 21; 50; 41; 60; 80] = Return [10; 22; 33; 41; 60; 80] /\
  forall seq : list Z,
    seq <> [] ->
    exists st,
      lis_tables seq = Return st /\
      forall (i j : nat) (lj sj si : Z),
        (j < i)%nat ->
        st_length st !! j = Some lj -> seq !! j = Some sj -> seq !! i = Some si ->
        sj < si ->
        exists (li : Z) (p : nat) (lp sp : Z),
          st_length st !! i = Some li /\
          st_prev st !! i = Some (Z.of_nat p) /\ (p < i)%nat /\
          st_length st !! p = Some lp /\ seq !! p = Some sp /\ sp < si /\
          li = lp + 1 /\
          lj + 1 <= li /\ (lj + 1 = li -> (j <= p)%nat).
Proof.
  split; [vm_compute; reflexivity|]. intros seq Hne.
  destruct (lis_tables_inv seq Hne) as (st & Hrun & _ & _ & Hentries & _).
  exists st. split; [assumption|].
  intros i j lj sj si Hji HLj Hsj Hsi Hlt.
  pose proof (lookup_lt_Some _ _ _ Hsi) as Hi.
  destruct (Hentries j ltac:(lia)) as (lj' & _ & _ & HLj' & _ & _ & Hlj0 & _).
  assert (lj' = lj) as -> by congruence.
  destruct (Hentries i Hi) as (li & pi & si' & HLi & HPi & Hsi' & _ & Hprev & Hscan).
  assert (si' = si) as -> by congruence.
  destruct (Hscan j lj sj ltac:(lia) HLj Hsj Hlt) as [Hmax Htie].
  destruct Hprev as [[_ Hbase]|(p & lp & sp & -> & Hp & HLp & Hsp & Hsplt & Hli)].
  - destruct i; [lia|]. simpl in Hbase. lia.
  - exists li, p, lp, sp. split_and!; auto; lia.
Qed.

(** C6, as the claim states it, fails: with a negative capacity, with a
    negative value, or with lists of different lengths, [knapsack] can
    return a table. *)
Lemma knapsack_accepts_invalid :
  ~ fails (knapsack (-1) [0; 3] [0; 40]) /\
  ~ fails (knapsack 5 [0; 3] [0; -40]) /\
  ~ fails (knapsack 5 [0; 3; 2] [0; 40]).
Proof.
  split_and!; intros H.
  - apply (H [[]; []]). vm_compute. reflexivity.
  - apply (H [[0; 0; 0; 0; 0]; [0; 0; 0; 0; 0]]). vm_compute. reflexivity.
  - apply (H [[0; 0; 0; 0; 0]; [0; 0; 0; 0; 40]]). vm_compute. reflexivity.
Qed.

(** C6, amended: [knapsack] validates nothing.  With a negative capacity
    it returns a table of [n] empty rows; and whatever the values are,
    when there are at least as many weights as values and no weight is
    negative, it returns a table of [n] rows of [max(W, 0)] columns. *)
Theorem knapsack_no_validation (W : Z) (w v : list Z) :
  (W < 0 -> knapsack W w v = Return (replicate (length v) [])) /\
  ((length v <= length w)%nat ->
   Forall (fun wk => 0 <= wk) w ->
   exists T,
     knapsack W w v = Return T /\
     length T = length v /\
     Forall (fun row => length row = Z.to_nat W) T).
Proof.
  split; [apply knapsack_negative_capacity|].
  intros Hlen Hw.
  destruct (knapsack_inv W w v Hlen) as (T & Hrun & HlenT & Hrows & _).
  { intros k wk _ Hwk. exact (proj1 (Forall_lookup _ _) Hw k wk Hwk). }
  exists T. split_and!; auto. apply Forall_lookup. exact Hrows.
Qed.

(** C7, as the claim states it, fails: on a negative [n] the generators
    return (the empty list) instead of failing. *)
Lemma fib_generators_accept_negative :
  ~ fails (all_fib_dp (-1)) /\ ~ fails (all_fib 0 (-1)).
Proof. split; intros H; apply (H []); reflexivity. Qed.

(** C7, amended: the generators have no error condition.  On every [n],
    [all_fib_dp] returns a list of [max(n, 0)] values, and so does
    [all_fib] given a recursion depth of at least [n]; on a negative [n]
    both return the empty list. *)
Theorem fib_generators_total (n : Z) :
  (exists fibs, all_fib_dp n = Return fibs /\ len fibs = Z.max n 0) /\
  (forall fuel, (Z.to_nat n <= fuel)%nat ->
                exists fibs, all_fib fuel n = Return fibs /\ len fibs = Z.max n 0) /\
  (n < 0 -> all_fib_dp n = Return [] /\ forall fuel, all_fib fuel n = Return []).
Proof.
  assert (Hdp : exists fibs, all_fib_dp n = Return fibs /\ len fibs = Z.max n 0).
  { destruct (Z.le_gt_cases n 0) as [Hn|Hn].
    - exists []. rewrite all_fib_dp_neg by assumption. split; [reflexivity|].
      unfold len. simpl. lia.
    - exists (map Fib (seq 0 (Z.to_nat n))). split.
      + rewrite <- (Z2Nat.id n) at 1 by lia. apply all_fib_dp_nat.
      + unfold len. rewrite length_map, length_seq. lia. }
  split_and!; [assumption| |].
  - intros fuel Hfuel. rewrite all_fib_all_fib_dp by assumption. assumption.
  - intros Hn. split; [apply all_fib_dp_neg; lia|].
    intros fuel. apply all_fib_neg. lia.
Qed.

(** ** The theorems above at concrete inputs *)

Lemma fib_variants_agree_witness :
  exists fibs, all_fib 10 10 = Return fibs /\ all_fib_dp 10 = Return fibs.
Proof.
  apply (proj1 fib_variants_agree 10 10%nat); [lia|simpl; lia].
Defined.

Lemma fib_generators_total_witness :
  (all_fib_dp (-1) = Return [] /\ forall fuel, all_fib fuel (-1) = Return []) /\
  exists fibs, all_fib 10 10 = Return fibs /\ len fibs = Z.max 10 0.
Proof.
  split.
  - apply (proj2 (proj2 (fib_generators_total (-1)))). lia.
  - apply (proj1 (proj2 (fib_generators_total 10)) 10%nat). simpl. lia.
Defined.

Lemma find_lis_increasing_subsequence_witness :
  exists lis,
    find_lis [3; 1; 2; 2; 4] = Return lis /\
    strictly_increasing lis = true /\
    lis `sublist_of` [3; 1; 2; 2; 4].
Proof.
  apply (find_lis_increasing_subsequence [3; 1; 2; 2; 4]). discriminate.
Defined.

Lemma find_lis_never_singleton_witness :
  exists lis,
    find_lis [5; 4; 3; 2; 1] = Return lis /\ (lis = [] \/ (2 <= length lis)%nat).
Proof.
  apply (find_lis_never_singleton [5; 4; 3; 2; 1]). discriminate.
Defined.

(** In [[1,2,2,3]] the candidates 1 and 2 both extend to length 3 at the
    index 3; the predecessor kept is not below the candidate 1. *)
Lemma lis_tie_break_largest_index_witness :
  exists st,
    lis_tables [1; 2; 2; 3] = Return st /\
    exists (li : Z) (p : nat) (lp sp : Z),
      st_length st !! 3%nat = Some li /\
      st_prev st !! 3%nat = Some (Z.of_nat p) /\ (p < 3)%nat /\
      st_length st !! p = Some lp /\ [1; 2; 2; 3] !! p = Some sp /\ sp < 3 /\
      li = lp + 1 /\
      2 + 1 <= li /\ (2 + 1 = li -> (1 <= p)%nat).
Proof.
  destruct (proj2 lis_tie_break_largest_index [1; 2; 2; 3] ltac:(discriminate))
    as (st & Hrun & Htie).
  exists st. split; [exact Hrun|].
  apply (Htie 3%nat 1%nat 2 2 3); [lia| |reflexivity|reflexivity|lia].
  vm_compute in Hrun. injection Hrun as <-. reflexivity.
Defined.

Lemma knapsack_strict_capacity_witness :
  exists T,
    knapsack 15 [0; 3; 9; 3; 6; 5] [0; 40; 45; 72; 77; 16] = Return T /\
    forall k x,
      1 <= k < len [0; 40; 45; 72; 77; 16] -> 1 <= x < 15 ->
      exists wk vk above cur,
        getitem [0; 3; 9; 3; 6; 5] k = Return wk /\
        getitem [0; 40; 45; 72; 77; 16] k = Return vk /\
        getcell T (k - 1) x = Return above /\ getcell T k x = Return cur /\
        (x <= wk -> cur = above) /\
        (wk < x ->
         exists diag,
           getcell T (k - 1) (x - wk) = Return diag /\
           cur = if diag + vk >? above then diag + vk else above).
Proof.
  apply (knapsack_strict_capacity 15 [0; 3; 9; 3; 6; 5] [0; 40; 45; 72; 77; 16]).
  - simpl. lia.
  - repeat constructor; lia.
Defined.

Lemma knapsack_no_validation_witness :
  knapsack (-1) [0; 3] [0; 40] = Return (replicate (length [0; 40]) []) /\
  exists T,
    knapsack 5 [0; 3; 2] [0; -40] = Return T /\
    length T = length [0; -40] /\
    Forall (fun row => length row = Z.to_nat 5) T.
Proof.
  split.
  - apply (proj1 (knapsack_no_validation (-1) [0; 3] [0; 40])). lia.
  - apply (proj2 (knapsack_no_validation 5 [0; 3; 2] [0; -40])).
    + simpl. lia.
    + repeat constructor; lia.
Defined.

(** * Further properties of the code *)

(** ** Fibonacci: termination, recurrence, prefixes, order *)

Lemma fib_negative (fuel : nat) (n : Z) : n < 0 -> fib fuel n = Timeout.
Proof.
  revert n. induction fuel as [|fuel IH]; intros n Hn; [reflexivity|].
  cbn [fib].
  destruct (Z.eqb_spec n 0) as [?|_]; [lia|].
  destruct (Z.eqb_spec n 1) as [?|_]; [lia|].
  rewrite IH by lia. reflexivity.
Qed.

(** X1: [fib(n)] comes back exactly on [n >= 0]: there a recursion depth of
    [max(1, n)] gives the [n]-th Fibonacci number, while on a negative [n]
    no depth is enough, the recursion never reaching a base case. *)
Theorem fib_returns_iff_nonnegative (n : Z) :
  (0 <= n ->
   forall fuel, (1 <= fuel)%nat -> (Z.to_nat n <= fuel)%nat ->
                fib fuel n = Return (Fib (Z.to_nat n))) /\
  (n < 0 -> forall fuel, fib fuel n = Timeout).
Proof.
  split.
  - intros Hn fuel H1 Hfuel. rewrite <- (Z2Nat.id n) at 1 by lia.
    apply fib_Fib; assumption.
  - intros Hn fuel. apply fib_negative, Hn.
Qed.

Lemma all_fib_dp_spec (n : Z) :
  all_fib_dp n = Return (map Fib (seq 0 (Z.to_nat n))).
Proof.
  destruct (Z.le_gt_cases n 0) as [Hn|Hn].
  - rewrite all_fib_dp_neg by assumption.
    replace (Z.to_nat n) with O by lia. reflexivity.
  - rewrite <- (Z2Nat.id n) at 1 by lia. apply all_fib_dp_nat.
Qed.

Lemma Fib_nonneg (k : nat) : 0 <= Fib k /\ 0 <= Fib (S k).
Proof.
  induction k as [|k [IH1 IH2]]; [simpl; lia|].
  split; [assumption|]. rewrite Fib_SS. lia.
Qed.

Lemma Fib_mono (i j : nat) : (i <= j)%nat -> Fib i <= Fib j.
Proof.
  induction 1 as [|j _ IH]; [lia|].
  etrans; [exact IH|]. destruct j as [|j]; [simpl; lia|].
  rewrite Fib_SS. pose proof (Fib_nonneg j). lia.
Qed.

(** X2: what [all_fib_dp(n)] returns starts with 0 and 1, and each later entry
    is the sum of the two entries before it. *)
Theorem all_fib_dp_recurrence (n : Z) (fibs : list Z) :
  all_fib_dp n = Return fibs ->
  (1 <= n -> getitem fibs 0 = Return 0) /\
  (2 <= n -> getitem fibs 1 = Return 1) /\
  (forall i, 2 <= i < n ->
     exists a b,
       getitem fibs (i - 2) = Return a /\ getitem fibs (i - 1) = Return b /\
       getitem fibs i = Return (a + b)).
Proof.
  rewrite all_fib_dp_spec. intros [= <-].
  assert (Hget : forall i, 0 <= i < n ->
             getitem (map Fib (seq 0 (Z.to_nat n))) i = Return (Fib (Z.to_nat i))).
  { intros i Hi. apply getitem_Z; [lia|].
    rewrite list_lookup_fmap, lookup_seq_lt by lia. reflexivity. }
  split_and!.
  - intros Hn. apply (Hget 0). lia.
  - intros Hn. apply (Hget 1). lia.
  - intros i Hi. exists (Fib (Z.to_nat (i - 2))), (Fib (Z.to_nat (i - 1))).
    rewrite !Hget by lia. split_and!; auto.
    replace (Z.to_nat i) with (S (S (Z.to_nat (i - 2)))) by lia.
    replace (Z.to_nat (i - 1)) with (S (Z.to_nat (i - 2))) by lia.
    rewrite Fib_SS. f_equal. lia.
Qed.

(** X3: a shorter run of [all_fib_dp] returns a prefix of a longer one. *)
Theorem all_fib_dp_prefix (m n : Z) (fm fn : list Z) :
  m <= n ->
  all_fib_dp m = Return fm -> all_fib_dp n = Return fn ->
  fm `prefix_of` fn.
Proof.
  intros Hmn. rewrite !all_fib_dp_spec. intros [= <-] [= <-].
  exists (map Fib (seq (Z.to_nat m) (Z.to_nat n - Z.to_nat m))).
  rewrite <- map_app, <- seq_app. do 2 f_equal. lia.
Qed.

(** X4: the numbers [all_fib_dp(n)] returns are non-negative and never
    decrease along the list. *)
Theorem all_fib_dp_sorted (n : Z) (fibs : list Z) :
  all_fib_dp n = Return fibs ->
  Forall (fun x => 0 <= x) fibs /\
  (forall (i j : nat) (a b : Z),
      (i <= j)%nat -> fibs !! i = Some a -> fibs !! j = Some b -> a <= b).
Proof.
  rewrite all_fib_dp_spec. intros [= <-]. split.
  - apply Forall_lookup. intros i x. rewrite list_lookup_fmap.
    destruct (seq 0 (Z.to_nat n) !! i) as [k|]; simpl; [|discriminate].
    intros [= <-]. apply Fib_nonneg.
  - intros i j a b Hij. rewrite !list_lookup_fmap.
    destruct (seq 0 (Z.to_nat n) !! i) as [ki|] eqn:Hi; simpl; [|discriminate].
    destruct (seq 0 (Z.to_nat n) !! j) as [kj|] eqn:Hj; simpl; [|discriminate].
    apply lookup_seq in Hi as [-> _]. apply lookup_seq in Hj as [-> _].
    intros [= <-] [= <-]. apply Fib_mono. lia.
Qed.

(** ** Longest increasing subsequence: the best end *)

Section LisBest.
Variable seq : list Z.

Lemma lis_outer_step_best (i : nat) (st : lis_state) :
  (1 <= i)%nat -> (i < length seq)%nat ->
  lis_inv seq i st -> lis_best_inv i st ->
  exists st',
    lis_outer seq st (Z.of_nat i) = Return st' /\
    lis_inv seq (S i) st' /\ lis_best_inv (S i) st'.
Proof.
  intros Hi1 Hin Hinv Hbinv.
  destruct (lis_outer_step seq i st Hi1 Hin Hinv) as (st' & Hstep & Hinv').
  exists st'. split_and!; [assumption|assumption|].
  destruct st as [L0 P0 ml b].
  destruct Hinv as (HlL & HlP & Hdone & Hml & Hbest).
  destruct Hbinv as (Hbound & Hnone & Hsome).
  cbn [st_length st_prev st_max_length st_best_seq_end] in *.
  unfold lis_outer in Hstep.
  cbn [st_length st_prev st_max_length st_best_seq_end] in Hstep.
  rewrite !setitem_nat, !bind_Return in Hstep by lia.
  destruct (lis_inner_loop seq i (<[i := 0]> L0) (<[i := -1]> P0) ml b)
    with (c := i) as (L & P & Hrun & HL & HP & Hsame & Hent);
    rewrite ?length_insert; auto; try lia.
  { apply list_lookup_insert_eq. lia. }
  { apply list_lookup_insert_eq. lia. }
  { intros k Hk. apply (lis_entry_ext seq L0 P0); [|auto].
    intros j Hj. rewrite !list_lookup_insert_ne by lia. auto. }
  replace (Z.of_nat i - 1 - Z.of_nat i) with (-1) in Hrun by lia.
  rewrite Hrun, bind_Return in Hstep.
  cbn [st_length st_prev st_max_length st_best_seq_end] in Hstep.
  assert (Hkeep : forall k, (k < i)%nat -> L !! k = L0 !! k).
  { intros k Hk. destruct (Hsame k ltac:(lia)) as [-> _].
    rewrite list_lookup_insert_ne by lia. reflexivity. }
  destruct Hent as (li & pi & si & HLi & _).
  rewrite (getitem_nat _ _ _ HLi), bind_Return in Hstep.
  destruct (Z.gtb_spec li ml) as [Hgt|Hle]; injection Hstep as <-;
    unfold lis_best_inv; cbn [st_length st_prev st_max_length st_best_seq_end].
  - split_and!.
    + intros k lk Hk HLk. destruct (decide (k = i)) as [->|Hne].
      * assert (lk = li) by congruence. lia.
      * rewrite Hkeep in HLk by lia.
        pose proof (Hbound k lk ltac:(lia) HLk). lia.
    + lia.
    + intros e He. assert (e = i) as -> by lia. assumption.
  - split_and!.
    + intros k lk Hk HLk. destruct (decide (k = i)) as [->|Hne].
      * assert (lk = li) by congruence. lia.
      * rewrite Hkeep in HLk by lia. apply (Hbound k lk); [lia|assumption].
    + assumption.
    + intros e He.
      destruct Hbest as [Hb|(e' & le & Hb & He' & _)]; [lia|].
      assert (e' = e) as -> by lia.
      rewrite Hkeep by lia. apply Hsome, He.
Qed.

Lemma lis_outer_loop_best (L0 P0 : list Z) :
  lis_inv seq 1 (LisState L0 P0 1 (-1)) ->
  lis_best_inv 1 (LisState L0 P0 1 (-1)) ->
  forall m, (1 <= m <= length seq)%nat ->
  exists st,
    foldM (lis_outer seq) (LisState L0 P0 1 (-1)) (range2 1 (Z.of_nat m)) =
    Return st /\ lis_inv seq m st /\ lis_best_inv m st.
Proof.
  intros Hinit Hbinit m [Hm1 Hmn]. induction m as [|m IH]; [lia|].
  destruct (decide (m = 0)%nat) as [->|Hm].
  - eexists. split_and!; [reflexivity|assumption|assumption].
  - destruct IH as (st & Hrun & Hinv & Hbinv); [lia..|].
    replace (Z.of_nat (S m)) with (Z.of_nat m + 1) by lia.
    rewrite range2_snoc by lia. rewrite (foldM_snoc _ _ _ _ _ Hrun).
    apply lis_outer_step_best; auto; lia.
Qed.

(** The tables of a non-empty sequence, with what the best end is. *)
Lemma lis_tables_best :
  seq <> [] ->
  exists st,
    lis_tables seq = Return st /\
    lis_inv seq (length seq) st /\ lis_best_inv (length seq) st.
Proof.
  intros Hne.
  assert (Hlen : (1 <= length seq)%nat) by (destruct seq; [congruence|simpl; lia]).
  destruct (lis_tables_inv seq Hne) as (st0 & Hrun0 & _).
  unfold lis_tables, len in *.
  rewrite !setitem_0, !bind_Return in * by (rewrite length_zeros; lia).
  apply lis_outer_loop_best; [| |lia].
  - unfold lis_inv. cbn [st_length st_prev st_max_length st_best_seq_end].
    rewrite !length_insert, !length_zeros.
    split_and!; auto; try lia.
    intros k Hk. assert (k = 0)%nat as -> by lia.
    destruct (lookup_lt_is_Some_2 seq 0 Hlen) as [s0 Hs0].
    exists 1, (-1), s0.
    rewrite !list_lookup_insert_eq by (rewrite length_zeros; lia).
    split_and!; auto; [lia|intros; lia].
  - unfold lis_best_inv. cbn [st_length st_prev st_max_length st_best_seq_end].
    split_and!; auto; [|intros; lia].
    intros k lk Hk. assert (k = 0)%nat as -> by lia.
    rewrite list_lookup_insert_eq by (rewrite length_zeros; lia).
    intros [= <-]. lia.
Qed.
End LisBest.

(** ** Longest increasing subsequence: how long the result is *)

Lemma strictly_increasing_snoc_inv (l : list Z) (x : Z) :
  strictly_increasing (l ++ [x]) = true ->
  strictly_increasing l = true /\ (forall y, last l = Some y -> y < x).
Proof.
  induction l as [|a l IH]; intros Hl; [split; [reflexivity|discriminate]|].
  destruct l as [|b l].
  - simpl in Hl. rewrite andb_true_r in Hl. apply Z.ltb_lt in Hl.
    split; [reflexivity|]. intros y [= <-]. assumption.
  - change (strictly_increasing ((a :: b :: l) ++ [x]))
      with ((a <? b) && strictly_increasing ((b :: l) ++ [x])) in Hl.
    apply andb_prop in Hl as [Hab Hl]. destruct (IH Hl) as [Hinc Hlast].
    split; [|intros y Hy; apply Hlast; rewrite <- Hy; reflexivity].
    change (strictly_increasing (a :: b :: l))
      with ((a <? b) && strictly_increasing (b :: l)).
    rewrite Hab, Hinc. reflexivity.
Qed.

Lemma strictly_increasing_head (a : Z) (t : list Z) :
  strictly_increasing (a :: t) = true ->
  strictly_increasing t = true /\ (forall j b, t !! j = Some b -> a < b).
Proof.
  revert a. induction t as [|b0 t IH]; intros a Hinc.
  - split; [reflexivity|]. intros j b Hj. destruct j; discriminate.
  - change (strictly_increasing (a :: b0 :: t))
      with ((a <? b0) && strictly_increasing (b0 :: t)) in Hinc.
    apply andb_prop in Hinc as [Hab Hinc]. apply Z.ltb_lt in Hab.
    split; [assumption|]. intros j b Hj. destruct j as [|j].
    + injection Hj as <-. assumption.
    + destruct (IH b0 Hinc) as [_ Hlt]. specialize (Hlt j b Hj). lia.
Qed.

Lemma strictly_increasing_lookup (l : list Z) (i j : nat) (a b : Z) :
  strictly_increasing l = true ->
  (i < j)%nat -> l !! i = Some a -> l !! j = Some b -> a < b.
Proof.
  revert i j. induction l as [|a0 t IH]; intros i j Hinc Hij Hi Hj;
    [destruct i; discriminate|].
  destruct (strictly_increasing_head a0 t Hinc) as [Hinc' Hhead].
  destruct j as [|j]; [lia|]. destruct i as [|i].
  - injection Hi as <-. apply (Hhead j b Hj).
  - apply (IH i j); auto. lia.
Qed.

Section LisLength.
Variables seq L P : list Z.
Hypothesis Hentries : forall k, (k < length seq)%nat -> lis_entry seq L P 0 k.

(** The chain recovered from the index [e] has as many elements as the
    entry [length[e]] says, or one more. *)
Lemma lis_recover_length (e : nat) :
  (e < length seq)%nat ->
  forall (fuel : nat) (lis : list Z), (e < fuel)%nat ->
  exists c,
    lis_recover fuel seq P lis (Z.of_nat e) = Return (lis ++ c) /\
    (forall le, L !! e = Some le -> le <= Z.of_nat (length c) <= le + 1).
Proof.
  induction e as [e IH] using lt_wf_ind. intros He fuel lis Hfuel.
  destruct (Hentries e He) as (le & pe & se & HLe & HPe & Hse & _ & Hprev & _).
  destruct fuel as [|fuel]; [lia|]. cbn [lis_recover].
  destruct (Z.eqb_spec (Z.of_nat e) (-1)) as [?|_]; [lia|].
  rewrite (getitem_nat _ _ _ Hse), (getitem_nat _ _ _ HPe), !bind_Return.
  destruct Hprev as [[-> Hbase]|(p & lp & sp & -> & Hp & HLp & Hsp & Hlt & Hle)].
  - exists [se]. split; [destruct fuel; reflexivity|].
    intros le' HLe'. assert (le' = le) as -> by congruence.
    destruct e; simpl in *; lia.
  - destruct (IH p ltac:(lia) ltac:(lia) fuel (lis ++ [se]) ltac:(lia))
      as (c & Hrun & Hlen).
    exists (se :: c). split; [rewrite Hrun, <- app_assoc; reflexivity|].
    intros le' HLe'. assert (le' = le) as -> by congruence.
    specialize (Hlen lp HLp). simpl length. lia.
Qed.

(** An increasing subsequence of the first [m] elements ends at the value
    of some index whose entry is at least its length less one. *)
Lemma lis_length_lower (m : nat) :
  (m <= length seq)%nat ->
  forall s,
    s `sublist_of` take m seq -> strictly_increasing s = true -> s <> [] ->
    exists (i : nat) (li y : Z),
      (i < m)%nat /\ seq !! i = Some y /\ last s = Some y /\
      L !! i = Some li /\ Z.of_nat (length s) - 1 <= li.
Proof.
  induction m as [|m IH]; intros Hm s Hsub Hinc Hne.
  - rewrite take_0 in Hsub. apply sublist_nil_r in Hsub. contradiction.
  - destruct (lookup_lt_is_Some_2 seq m ltac:(lia)) as [x Hx].
    rewrite (take_S_r _ _ _ Hx) in Hsub.
    apply sublist_snoc_inv in Hsub as [Hsub|(s' & -> & Hsub)].
    + destruct (IH ltac:(lia) s Hsub Hinc Hne) as (i & li & y & Hi & ?).
      exists i, li, y. split; [lia|assumption].
    + destruct (Hentries m ltac:(lia))
        as (lm & pm & sm & HLm & _ & Hsm & Hlm0 & _ & Hscan).
      assert (sm = x) as -> by congruence.
      apply strictly_increasing_snoc_inv in Hinc as [Hinc' Hlast].
      exists m, lm, x. rewrite last_snoc, length_app. simpl length.
      split_and!; auto.
      destruct s' as [|a s']; [simpl; lia|].
      destruct (IH ltac:(lia) (a :: s') Hsub Hinc' ltac:(discriminate))
        as (j & lj & y & Hj & Hsj & Hlasty & HLj & Hlen).
      destruct (Hscan j lj y ltac:(lia) HLj Hsj (Hlast y Hlasty)) as [Hmax _].
      lia.
Qed.
End LisLength.

(** X7: when the longest strictly increasing subsequence has three elements or
    more, what [find_lis] returns is at most one element shorter. *)
Theorem find_lis_nearly_longest (seq : list Z) :
  (3 <= max_increasing_length seq)%nat ->
  exists lis,
    find_lis seq = Return lis /\
    (max_increasing_length seq - 1 <= length lis <= max_increasing_length seq)%nat.
Proof.
  intros Hlong.
  assert (Hne : seq <> []) by (intros ->; vm_compute in Hlong; lia).
  destruct (find_lis_nonempty seq Hne) as (lis & Hfind & Hinc & Hsub & _).
  exists lis. split; [assumption|].
  split; [|apply max_increasing_length_bound; assumption].
  destruct (lis_tables_best seq Hne)
    as ([L P ml b] & Htab & (_ & _ & Hentries & _ & Hbest) & (Hbound & Hnone & Hsome)).
  cbn [st_length st_prev st_max_length st_best_seq_end] in *.
  destruct (max_increasing_length_attained seq) as (s & Hs & Hsinc & Hslen).
  destruct (lis_length_lower seq L P Hentries (length seq) ltac:(lia) s)
    as (i & li & y & Hi & _ & _ & HLi & Hli); auto.
  { rewrite take_ge by lia. assumption. }
  { intros ->. simpl in Hslen. lia. }
  pose proof (Hbound i li Hi HLi) as Hml.
  destruct Hbest as [->|(e & le & -> & He & HLe & _)];
    [specialize (Hnone eq_refl); lia|].
  specialize (Hsome e eq_refl).
  destruct (lis_recover_length seq L P Hentries e He (length seq) [] He)
    as (c & Hrun & Hlen).
  specialize (Hlen ml Hsome).
  unfold find_lis, find_lis_fuel in Hfind.
  rewrite Htab, bind_Return in Hfind.
  cbn [st_length st_prev st_max_length st_best_seq_end] in Hfind.
  rewrite Hrun, bind_Return in Hfind. injection Hfind as <-.
  rewrite length_reverse. simpl in Hlen. lia.
Qed.

(** X8: with no element below a later one, [find_lis] returns the empty list. *)
Theorem find_lis_no_increase (seq : list Z) :
  seq <> [] ->
  (forall (i j : nat) (a b : Z),
      (i < j)%nat -> seq !! i = Some a -> seq !! j = Some b -> b <= a) ->
  find_lis seq = Return [].
Proof.
  intros Hne Hdown.
  destruct (lis_tables_inv seq Hne)
    as ([L P ml b] & Htab & _ & _ & Hentries & _ & Hbest).
  cbn [st_length st_prev st_max_length st_best_seq_end] in *.
  unfold find_lis, find_lis_fuel. rewrite Htab, bind_Return.
  cbn [st_length st_prev st_max_length st_best_seq_end].
  destruct Hbest as [->|(e & le & -> & He & HLe & Hle)].
  - destruct (length seq); reflexivity.
  - destruct (Hentries e He) as (le' & pe & se & HLe' & _ & Hse & _ & Hprev & _).
    assert (le' = le) as -> by congruence.
    destruct Hprev as [[_ Hbase]|(p & lp & sp & _ & Hp & _ & Hsp & Hlt & _)].
    + destruct e; simpl in Hbase; lia.
    + specialize (Hdown p e sp se ltac:(lia) Hsp Hse). lia.
Qed.

Section LisSorted.
Variables seq L P : list Z.
Hypothesis Hentries : forall k, (k < length seq)%nat -> lis_entry seq L P 0 k.
Hypothesis Hsorted : strictly_increasing seq = true.

(** On a strictly increasing sequence the entry of [k] is [k + 1] and its
    predecessor [k - 1]. *)
Lemma lis_sorted_entries (k : nat) :
  (k < length seq)%nat ->
  L !! k = Some (Z.of_nat k + 1) /\ P !! k = Some (Z.of_nat k - 1).
Proof.
  induction k as [k IH] using lt_wf_ind. intros Hk.
  destruct (Hentries k Hk) as (lk & pk & sk & HLk & HPk & Hsk & _ & Hprev & Hscan).
  rewrite HLk, HPk.
  destruct k as [|k].
  - destruct Hprev as [[-> ->]|(p & _ & _ & _ & Hp & _)]; [auto|lia].
  - destruct (IH k ltac:(lia) ltac:(lia)) as [HLk' _].
    destruct (lookup_lt_is_Some_2 seq k ltac:(lia)) as [sk' Hsk'].
    pose proof (strictly_increasing_lookup seq k (S k) sk' sk Hsorted
                  ltac:(lia) Hsk' Hsk) as Hlt.
    destruct (Hscan k _ sk' ltac:(lia) HLk' Hsk' Hlt) as [Hmax _].
    destruct Hprev as [[_ Hbase]|(p & lp & sp & -> & Hp & HLp & _ & _ & ->)].
    + simpl in Hbase. lia.
    + destruct (IH p ltac:(lia) ltac:(lia)) as [HLp' _].
      assert (lp = Z.of_nat p + 1) as -> by congruence.
      assert (p = k) as -> by lia. split; f_equal; lia.
Qed.

Lemma lis_sorted_recover (e : nat) :
  (e < length seq)%nat ->
  forall (fuel : nat) (lis : list Z), (e < fuel)%nat ->
  lis_recover fuel seq P lis (Z.of_nat e) =
  Return (lis ++ reverse (take (S e) seq)).
Proof.
  induction e as [|e IH]; intros He fuel lis Hfuel;
    (destruct fuel as [|fuel]; [lia|]);
    destruct (lookup_lt_is_Some_2 seq _ He) as [x Hx];
    destruct (lis_sorted_entries _ He) as [_ HP];
    cbn [lis_recover].
  - rewrite (getitem_nat _ _ _ Hx), (getitem_nat _ _ _ HP), !bind_Return.
    rewrite (take_S_r _ _ _ Hx), take_0. simpl.
    destruct fuel; reflexivity.
  - destruct (Z.eqb_spec (Z.of_nat (S e)) (-1)) as [?|_]; [lia|].
    rewrite (getitem_nat _ _ _ Hx), (getitem_nat _ _ _ HP), !bind_Return.
    replace (Z.of_nat (S e) - 1) with (Z.of_nat e) by lia.
    rewrite IH by lia.
    rewrite (take_S_r _ (S e) _ Hx), reverse_snoc, <- app_assoc. reflexivity.
Qed.
End LisSorted.

(** X9: a strictly increasing sequence of two elements or more is returned as
    it is. *)
Theorem find_lis_sorted_input (seq : list Z) :
  (2 <= length seq)%nat -> strictly_increasing seq = true ->
  find_lis seq = Return seq.
Proof.
  intros Hlen Hsorted.
  assert (Hne : seq <> []) by (intros ->; simpl in Hlen; lia).
  destruct (lis_tables_best seq Hne)
    as ([L P ml b] & Htab & (_ & _ & Hentries & _ & Hbest) & (Hbound & Hnone & Hsome)).
  cbn [st_length st_prev st_max_length st_best_seq_end] in *.
  destruct (lis_sorted_entries seq L P Hentries Hsorted (length seq - 1) ltac:(lia))
    as [HLlast _].
  pose proof (Hbound (length seq - 1)%nat _ ltac:(lia) HLlast) as Hml.
  unfold find_lis, find_lis_fuel. rewrite Htab, bind_Return.
  cbn [st_length st_prev st_max_length st_best_seq_end].
  destruct Hbest as [->|(e & le & -> & He & HLe & _)];
    [specialize (Hnone eq_refl); lia|].
  specialize (Hsome e eq_refl).
  destruct (lis_sorted_entries seq L P Hentries Hsorted e He) as [HLe' _].
  assert (e = length seq - 1)%nat as -> by (rewrite HLe' in Hsome; injection Hsome; lia).
  rewrite (lis_sorted_recover seq L P Hentries Hsorted) by lia.
  rewrite bind_Return, app_nil_l, reverse_involutive.
  rewrite take_ge by lia. reflexivity.
Qed.

(** ** Knapsack: every cell is an optimum; monotonicity *)

Lemma optimum_mono_capacity (cap cap' : Z) (items : list (Z * Z)) :
  cap <= cap' -> optimum cap items <= optimum cap' items.
Proof.
  intros Hcap.
  destruct (optimum_attained cap items) as [->|(s & Hsub & Hfit & <-)];
    [apply optimum_nonneg|].
  apply optimum_ge; [assumption|lia].
Qed.

Lemma optimum_mono_items (cap : Z) (items items' : list (Z * Z)) :
  items `sublist_of` items' -> optimum cap items <= optimum cap items'.
Proof.
  intros Hitems.
  destruct (optimum_attained cap items) as [->|(s & Hsub & Hfit & <-)];
    [apply optimum_nonneg|].
  apply optimum_ge; [|assumption]. etrans; eassumption.
Qed.

Lemma take_sublist_take {A : Type} (l : list A) (i j : nat) :
  (i <= j)%nat -> take i l `sublist_of` take j l.
Proof.
  intros Hij. replace i with (i `min` j)%nat by lia.
  rewrite <- take_take. apply sublist_take.
Qed.

Lemma knapsack_cells (W : Z) (w v : list Z) :
  (length v <= length w)%nat ->
  Forall (fun wk => 0 <= wk) w ->
  exists T,
    knapsack W w v = Return T /\
    forall k x : nat,
      (k < length v)%nat -> (x < Z.to_nat W)%nat ->
      cell T k x = Some (optimum (Z.of_nat x - 1) (take k (drop 1 (zip w v)))).
Proof.
  intros Hlen Hw.
  assert (Hweights : forall k wk,
             (1 <= k < length v)%nat -> w !! k = Some wk -> 0 <= wk).
  { intros k wk _ Hwk. exact (proj1 (Forall_lookup _ _) Hw k wk Hwk). }
  destruct (knapsack_inv W w v Hlen Hweights) as (T & Hrun & Hinv).
  exists T. split; [assumption|].
  apply (knapsack_table_value w v (Z.to_nat W) T Hlen Hweights Hinv).
Qed.

(** X10: with at least as many weights as values and no negative weight, the
    cell [(k, x)] of the table [knapsack] returns is the greatest total
    value of a subset of the items [1..k] whose total weight is at most
    [x - 1] (0 when no subset fits). *)
Theorem knapsack_cells_optimum (W : Z) (w v : list Z) :
  (length v <= length w)%nat ->
  Forall (fun wk => 0 <= wk) w ->
  exists T,
    knapsack W w v = Return T /\
    forall k x,
      0 <= k < len v -> 0 <= x < W ->
      getcell T k x =
      Return (optimum (x - 1) (take (Z.to_nat k) (drop 1 (zip w v)))).
Proof.
  intros Hlen Hw. destruct (knapsack_cells W w v Hlen Hw) as (T & Hrun & Hcells).
  exists T. split; [assumption|]. intros k x Hk Hx. unfold len in Hk.
  pose proof (Hcells (Z.to_nat k) (Z.to_nat x) ltac:(lia) ltac:(lia)) as Hcell.
  apply getcell_nat in Hcell. rewrite !Z2Nat.id in Hcell by lia. exact Hcell.
Qed.

(** X12: row 0 of the table is zero and no row is below the one above it, so no
    cell is negative, whatever the values are. *)
Theorem knapsack_rows_monotone (W : Z) (w v : list Z) :
  (length v <= length w)%nat ->
  Forall (fun wk => 0 <= wk) w ->
  exists T,
    knapsack W w v = Return T /\
    (forall x, 0 <= x < W -> 1 <= len v -> getcell T 0 x = Return 0) /\
    (forall k x,
        1 <= k < len v -> 0 <= x < W ->
        exists above cur,
          getcell T (k - 1) x = Return above /\ getcell T k x = Return cur /\
          0 <= above <= cur).
Proof.
  intros Hlen Hw. destruct (knapsack_cells W w v Hlen Hw) as (T & Hrun & Hcells).
  exists T. unfold len. split_and!; [assumption| |].
  - intros x Hx Hn.
    pose proof (Hcells 0%nat (Z.to_nat x) ltac:(lia) ltac:(lia)) as Hcell.
    rewrite take_0, optimum_nil in Hcell.
    apply getcell_nat in Hcell. rewrite Z2Nat.id in Hcell by lia. exact Hcell.
  - intros k x Hk Hx.
    pose proof (Hcells (Z.to_nat k - 1)%nat (Z.to_nat x) ltac:(lia) ltac:(lia))
      as Habove.
    pose proof (Hcells (Z.to_nat k) (Z.to_nat x) ltac:(lia) ltac:(lia)) as Hcur.
    apply getcell_nat in Habove, Hcur.
    replace (Z.of_nat (Z.to_nat k - 1)) with (k - 1) in Habove by lia.
    rewrite !Z2Nat.id in * by lia.
    eexists _, _. split_and!; [exact Habove|exact Hcur|apply optimum_nonneg|].
    apply optimum_mono_items, take_sublist_take. lia.
Qed.

(** X13: along a row the cells never decrease with the column. *)
Theorem knapsack_columns_monotone (W : Z) (w v : list Z) :
  (length v <= length w)%nat ->
  Forall (fun wk => 0 <= wk) w ->
  exists T,
    knapsack W w v = Return T /\
    forall k x x',
      0 <= k < len v -> 0 <= x <= x' -> x' < W ->
      exists a b,
        getcell T k x = Return a /\ getcell T k x' = Return b /\ a <= b.
Proof.
  intros Hlen Hw. destruct (knapsack_cells W w v Hlen Hw) as (T & Hrun & Hcells).
  exists T. unfold len. split; [assumption|]. intros k x x' Hk Hx Hx'.
  pose proof (Hcells (Z.to_nat k) (Z.to_nat x) ltac:(lia) ltac:(lia)) as Ha.
  pose proof (Hcells (Z.to_nat k) (Z.to_nat x') ltac:(lia) ltac:(lia)) as Hb.
  apply getcell_nat in Ha, Hb. rewrite !Z2Nat.id in * by lia.
  eexists _, _. split_and!; [exact Ha|exact Hb|].
  apply optimum_mono_capacity. lia.
Qed.

(** X14: for fixed items the bottom-right entry does not decrease when the
    capacity grows. *)
Theorem knapsack_corner_monotone (W W' : Z) (w v : list Z) :
  (length v <= length w)%nat ->
  Forall (fun wk => 0 <= wk) w ->
  1 <= len v -> 1 <= W <= W' ->
  exists T T' c c',
    knapsack W w v = Return T /\ knapsack W' w v = Return T' /\
    getcell T (len v - 1) (W - 1) = Return c /\
    getcell T' (len v - 1) (W' - 1) = Return c' /\
    c <= c'.
Proof.
  intros Hlen Hw Hn HW. unfold len in *.
  destruct (knapsack_cells W w v Hlen Hw) as (T & Hrun & Hcells).
  destruct (knapsack_cells W' w v Hlen Hw) as (T' & Hrun' & Hcells').
  pose proof (Hcells (length v - 1)%nat (Z.to_nat W - 1)%nat ltac:(lia) ltac:(lia))
    as Hc.
  pose proof (Hcells' (length v - 1)%nat (Z.to_nat W' - 1)%nat ltac:(lia) ltac:(lia))
    as Hc'.
  apply getcell_nat in Hc, Hc'.
  replace (Z.of_nat (length v - 1)) with (Z.of_nat (length v) - 1) in * by lia.
  replace (Z.of_nat (Z.to_nat W - 1)) with (W - 1) in * by lia.
  replace (Z.of_nat (Z.to_nat W' - 1)) with (W' - 1) in * by lia.
  eexists T, T', _, _. split_and!; [assumption|assumption|exact Hc|exact Hc'|].
  apply optimum_mono_capacity. lia.
Qed.

(** ** Knapsack: what is read, degenerate sizes, short weight lists *)

Lemma foldM_ext {S X : Type} (f g : S -> X -> outcome S) (l : list X) (s : S) :
  (forall s x, x ∈ l -> f s x = g s x) -> foldM f s l = foldM g s l.
Proof.
  revert s. induction l as [|x l IH]; intros s Hfg; [reflexivity|].
  simpl. rewrite (Hfg s x) by apply list_elem_of_here.
  destruct (g s x); simpl; auto. apply IH. intros s' y Hy.
  apply Hfg. apply list_elem_of_further, Hy.
Qed.

Lemma foldM_skip {S X : Type} (f : S -> X -> outcome S) (l : list X) (s : S) :
  (forall s x, f s x = Return s) -> foldM f s l = Return s.
Proof.
  intros Hf. induction l as [|x l IH]; [reflexivity|].
  simpl. rewrite Hf. exact IH.
Qed.

Lemma elem_of_range2 (a b x : Z) : x ∈ range2 a b <-> a <= x < b.
Proof.
  unfold range2. rewrite list_elem_of_fmap. split.
  - intros (k & -> & Hk). apply elem_of_seq in Hk. lia.
  - intros Hx. exists (Z.to_nat (x - a)). split; [lia|].
    apply elem_of_seq. lia.
Qed.

Lemma range2_cons (a b : Z) : a < b -> range2 a b = a :: range2 (a + 1) b.
Proof.
  intros Hab. unfold range2.
  replace (Z.to_nat (b - a)) with (S (Z.to_nat (b - (a + 1)))) by lia.
  cbn [seq map]. f_equal; [lia|].
  rewrite <- seq_shift, map_map. apply map_ext. intros k. lia.
Qed.

Lemma getitem_cons {A : Type} (a : A) (l : list A) (k : Z) :
  1 <= k -> getitem (a :: l) k = getitem l (k - 1).
Proof.
  intros Hk. unfold getitem, norm_index, len. cbn [length].
  destruct (Z.ltb_spec k 0) as [?|_]; [lia|].
  destruct (Z.ltb_spec (k - 1) 0) as [?|_]; [lia|].
  replace (Z.to_nat k) with (S (Z.to_nat (k - 1))) by lia. cbn [lookup list_lookup].
  destruct (Z.leb_spec 0 k); [|lia]. destruct (Z.leb_spec 0 (k - 1)); [|lia].
  destruct (Z.ltb_spec k (Z.of_nat (S (length l))));
    destruct (Z.ltb_spec (k - 1) (Z.of_nat (length l))); try lia; reflexivity.
Qed.

Lemma getitem_app_l {A : Type} (l extra : list A) (k : Z) :
  0 <= k < len l -> getitem (l ++ extra) k = getitem l k.
Proof.
  unfold getitem, norm_index, len. intros Hk. rewrite length_app.
  destruct (Z.ltb_spec k 0) as [?|_]; [lia|].
  destruct (Z.leb_spec 0 k); [|lia].
  destruct (Z.ltb_spec k (Z.of_nat (length l + length extra))); [|lia].
  destruct (Z.ltb_spec k (Z.of_nat (length l))); [|lia].
  cbn [andb]. rewrite lookup_app_l by lia. reflexivity.
Qed.

(** [knapsack] reads only the weights and the values of the indices
    [1..n-1]. *)
Lemma knapsack_ext (W : Z) (w v w' v' : list Z) :
  len v = len v' ->
  (forall k, 1 <= k < len v ->
             getitem w k = getitem w' k /\ getitem v k = getitem v' k) ->
  knapsack W w v = knapsack W w' v'.
Proof.
  intros Hn Hread. unfold knapsack. rewrite <- Hn.
  apply foldM_ext. intros T x _. apply foldM_ext. intros T' k Hk.
  apply elem_of_range2 in Hk. destruct (Hread k Hk) as [Hw Hv].
  unfold knapsack_cell. rewrite Hw, Hv. reflexivity.
Qed.

(** X15: the first item is never looked at: its weight and its value change
    nothing in the outcome, a table or an error. *)
Theorem knapsack_ignores_first_item (W w0 v0 w0' v0' : Z) (w v : list Z) :
  knapsack W (w0 :: w) (v0 :: v) = knapsack W (w0' :: w) (v0' :: v).
Proof.
  apply knapsack_ext; [reflexivity|]. intros k Hk.
  rewrite !getitem_cons by lia. auto.
Qed.

(** X16: weights beyond the number of values are never looked at. *)
Theorem knapsack_ignores_extra_weights (W : Z) (w v extra : list Z) :
  (length v <= length w)%nat ->
  knapsack W (w ++ extra) v = knapsack W w v.
Proof.
  intros Hlen. apply knapsack_ext; [reflexivity|]. intros k Hk.
  unfold len in Hk. rewrite getitem_app_l by (unfold len; lia). auto.
Qed.

(** X17: with a capacity of at most 1, or at most one value, the loops write
    nothing: whatever the weights and the values are, the table of zeros
    of [n] rows and [max(W, 0)] columns is returned. *)
Theorem knapsack_degenerate (W : Z) (w v : list Z) :
  W <= 1 \/ len v <= 1 ->
  knapsack W w v = Return (replicate (length v) (replicate (Z.to_nat W) 0)).
Proof.
  intros Hsmall. unfold knapsack.
  assert (Hinit : map (fun _ : Z => map (fun _ : Z => 0) (range W)) (range (len v))
                  = replicate (length v) (replicate (Z.to_nat W) 0)).
  { rewrite !map_const. unfold range, len. rewrite !range2_length.
    f_equal; [lia|f_equal; lia]. }
  rewrite Hinit. destruct Hsmall as [HW|Hn].
  - rewrite (range2_nil 1 W) by lia. reflexivity.
  - apply foldM_skip. intros T x. rewrite (range2_nil 1 (len v)) by lia.
    reflexivity.
Qed.

Lemma getitem_no_timeout {A : Type} (l : list A) (i : Z) : getitem l i <> Timeout.
Proof.
  unfold getitem. destruct (_ && _); [|discriminate].
  destruct (l !! _); discriminate.
Qed.

Lemma setitem_no_timeout {A : Type} (l : list A) (i : Z) (a : A) :
  setitem l i a <> Timeout.
Proof. unfold setitem. destruct (_ && _); discriminate. Qed.

Lemma getcell_no_timeout (T : list (list Z)) (k x : Z) : getcell T k x <> Timeout.
Proof.
  unfold getcell. destruct (getitem T k) as [row|e|] eqn:Hrow; simpl.
  - apply getitem_no_timeout.
  - discriminate.
  - exfalso. exact (getitem_no_timeout _ _ Hrow).
Qed.

Lemma setcell_no_timeout (T : list (list Z)) (k x a : Z) : setcell T k x a <> Timeout.
Proof.
  unfold setcell. destruct (getitem T k) as [row|e|] eqn:Hrow; simpl.
  - destruct (setitem row x a) as [row'|e|] eqn:Hset; simpl.
    + apply setitem_no_timeout.
    + discriminate.
    + exfalso. exact (setitem_no_timeout _ _ _ Hset).
  - discriminate.
  - exfalso. exact (getitem_no_timeout _ _ Hrow).
Qed.

(** The loop body of [knapsack] returns or raises [IndexError]. *)
Lemma knapsack_cell_no_timeout (w v : list Z) (x : Z) (T : list (list Z)) (k : Z) :
  knapsack_cell w v x T k <> Timeout.
Proof.
  unfold knapsack_cell.
  repeat match goal with
         | |- Return _ <> Timeout => discriminate
         | |- Raise _ <> Timeout => discriminate
         | |- setcell _ _ _ _ <> Timeout => apply setcell_no_timeout
         | |- (if ?b then _ else _) <> Timeout => destruct b
         | |- bind ?o _ <> Timeout =>
             let H := fresh "H" in
             destruct o eqn:H; cbn [bind];
             [ | discriminate
               | exfalso;
                 first [ exact (getitem_no_timeout _ _ H)
                       | exact (getcell_no_timeout _ _ _ H)
                       | exact (setcell_no_timeout _ _ _ _ H) ] ]
         end.
Qed.

Lemma knapsack_cell_short_weights (w v : list Z) (x : Z) (T : list (list Z)) (k : Z) :
  len w <= k -> knapsack_cell w v x T k = Raise IndexError.
Proof.
  intros Hk. unfold knapsack_cell.
  destruct (getcell T (k - 1) x) as [above|[]|] eqn:Habove; cbn [bind];
    [|reflexivity|exfalso; exact (getcell_no_timeout _ _ _ Habove)].
  destruct (setcell T k x above) as [T1|[]|] eqn:HT1; cbn [bind];
    [|reflexivity|exfalso; exact (setcell_no_timeout _ _ _ _ HT1)].
  assert (Hw : getitem w k = Raise IndexError).
  { unfold getitem, norm_index.
    pose proof (Zle_0_nat (length w)). unfold len in *.
    destruct (Z.ltb_spec k 0) as [?|_]; [lia|].
    destruct (Z.ltb_spec k (Z.of_nat (length w))); [lia|].
    rewrite andb_false_r. reflexivity. }
  rewrite Hw. reflexivity.
Qed.

Lemma foldM_raises {S X : Type} (f : S -> X -> outcome S) (l : list X) (x0 : X) :
  (forall s x, f s x <> Timeout) ->
  (forall s, f s x0 = Raise IndexError) ->
  x0 ∈ l ->
  forall s, foldM f s l = Raise IndexError.
Proof.
  intros Hno Hx0. induction l as [|x l IH]; intros Hin s; [inversion Hin|].
  simpl. destruct (f s x) as [s'|[]|] eqn:Hfx; cbn [bind].
  - apply elem_of_cons in Hin as [->|Hin]; [|apply IH, Hin].
    rewrite Hx0 in Hfx. discriminate.
  - reflexivity.
  - exfalso. exact (Hno _ _ Hfx).
Qed.

(** X18: with fewer weights than values, at least two values and a capacity of
    at least 2, [knapsack] raises [IndexError]: a weight is read past the
    end of the list (or an earlier index is out of range). *)
Theorem knapsack_short_weights_raise (W : Z) (w v : list Z) :
  (length w < length v)%nat -> 2 <= len v -> 2 <= W ->
  knapsack W w v = Raise IndexError.
Proof.
  intros Hlen Hn HW. unfold knapsack, len in *.
  rewrite (range2_cons 1 W) by lia. cbn [foldM].
  rewrite (foldM_raises (knapsack_cell w v 1) _ (Z.max 1 (Z.of_nat (length w)))).
  - reflexivity.
  - intros T k. apply knapsack_cell_no_timeout.
  - intros T. apply knapsack_cell_short_weights. unfold len. lia.
  - apply elem_of_range2. lia.
Qed.

(** ** The further properties at concrete inputs *)

Lemma fib_returns_iff_nonnegative_witness :
  fib 6 6 = Return (Fib (Z.to_nat 6)) /\ fib 6 (-2) = Timeout.
Proof.
  split.
  - apply (proj1 (fib_returns_iff_nonnegative 6)); [lia|lia|simpl; lia].
  - apply (proj2 (fib_returns_iff_nonnegative (-2))). lia.
Defined.

Lemma all_fib_dp_recurrence_witness :
  getitem [0; 1; 1; 2; 3; 5] 0 = Return 0 /\
  getitem [0; 1; 1; 2; 3; 5] 1 = Return 1 /\
  exists a b,
    getitem [0; 1; 1; 2; 3; 5] (5 - 2) = Return a /\
    getitem [0; 1; 1; 2; 3; 5] (5 - 1) = Return b /\
    getitem [0; 1; 1; 2; 3; 5] 5 = Return (a + b).
Proof.
  destruct (all_fib_dp_recurrence 6 [0; 1; 1; 2; 3; 5] eq_refl) as (H0 & H1 & Hrec).
  split_and!; [apply H0; lia|apply H1; lia|apply (Hrec 5); lia].
Defined.

Lemma all_fib_dp_prefix_witness : [0; 1; 1] `prefix_of` [0; 1; 1; 2; 3; 5].
Proof.
  apply (all_fib_dp_prefix 3 6); [lia|reflexivity|reflexivity].
Defined.

Lemma all_fib_dp_sorted_witness :
  Forall (fun x => 0 <= x) [0; 1; 1; 2; 3; 5] /\
  (forall (i j : nat) (a b : Z),
      (i <= j)%nat -> [0; 1; 1; 2; 3; 5] !! i = Some a ->
      [0; 1; 1; 2; 3; 5] !! j = Some b -> a <= b).
Proof. apply (all_fib_dp_sorted 6). reflexivity. Defined.


Lemma find_lis_length_le_witness :
  exists lis,
    find_lis [10; 11; 1; 2; 3] = Return lis /\
    (length lis <= max_increasing_length [10; 11; 1; 2; 3]%Z)%nat.
Proof. apply find_lis_length_le. discriminate. Defined.

Lemma find_lis_nearly_longest_witness :
  exists lis,
    find_lis [10; 11; 1; 2; 3] = Return lis /\
    (max_increasing_length [10; 11; 1; 2; 3]%Z - 1 <= length lis
     <= max_increasing_length [10; 11; 1; 2; 3]%Z)%nat.
Proof.
  apply find_lis_nearly_longest.
  change (max_increasing_length [10; 11; 1; 2; 3]) with 3%nat. lia.
Defined.

Lemma find_lis_no_increase_witness : find_lis [5; 5; 3; 1] = Return [].
Proof.
  apply find_lis_no_increase; [discriminate|].
  intros i j a b Hij Hi Hj.
  destruct i as [|[|[|[|i]]]]; destruct j as [|[|[|[|j]]]];
    simpl in Hi, Hj; try discriminate; try lia;
    injection Hi as <-; injection Hj as <-; lia.
Defined.

Lemma find_lis_sorted_input_witness : find_lis [1; 3; 7; 20] = Return [1; 3; 7; 20].
Proof. apply find_lis_sorted_input; [simpl; lia|reflexivity]. Defined.

Lemma knapsack_cells_optimum_witness :
  exists T,
    knapsack 15 [0; 3; 9; 3; 6; 5] [0; 40; 45; 72; 77; 16] = Return T /\
    forall k x,
      0 <= k < len [0; 40; 45; 72; 77; 16] -> 0 <= x < 15 ->
      getcell T k x =
      Return (optimum (x - 1)
                (take (Z.to_nat k)
                   (drop 1 (zip [0; 3; 9; 3; 6; 5] [0; 40; 45; 72; 77; 16])))).
Proof.
  apply knapsack_cells_optimum; [simpl; lia|repeat constructor; lia].
Defined.

Lemma knapsack_corner_value_witness :
  exists T,
    knapsack 15 [0; 9; 6] [0; 45; 77] = Return T /\
    getcell T (len [0; 45; 77] - 1) (15 - 1) =
    Return (optimum (15 - 2) (drop 1 (zip [0; 9; 6] [0; 45; 77]))).
Proof.
  apply knapsack_corner_value; [simpl; lia| |unfold len; simpl; lia|lia].
  intros k wk Hk Hwk.
  destruct k as [|[|[|k]]]; simpl in Hk, Hwk; try lia;
    injection Hwk as <-; lia.
Defined.

Lemma knapsack_rows_monotone_witness :
  exists T,
    knapsack 6 [0; 3; 2] [0; -4; 7] = Return T /\
    (forall x, 0 <= x < 6 -> 1 <= len [0; -4; 7] -> getcell T 0 x = Return 0) /\
    (forall k x,
        1 <= k < len [0; -4; 7] -> 0 <= x < 6 ->
        exists above cur,
          getcell T (k - 1) x = Return above /\ getcell T k x = Return cur /\
          0 <= above <= cur).
Proof.
  apply knapsack_rows_monotone; [simpl; lia|repeat constructor; lia].
Defined.

Lemma knapsack_columns_monotone_witness :
  exists T,
    knapsack 6 [0; 3; 2] [0; 4; 7] = Return T /\
    forall k x x',
      0 <= k < len [0; 4; 7] -> 0 <= x <= x' -> x' < 6 ->
      exists a b,
        getcell T k x = Return a /\ getcell T k x' = Return b /\ a <= b.
Proof.
  apply knapsack_columns_monotone; [simpl; lia|repeat constructor; lia].
Defined.

Lemma knapsack_corner_monotone_witness :
  exists T T' c c',
    knapsack 4 [0; 3; 2] [0; 4; 7] = Return T /\
    knapsack 9 [0; 3; 2] [0; 4; 7] = Return T' /\
    getcell T (len [0; 4; 7] - 1) (4 - 1) = Return c /\
    getcell T' (len [0; 4; 7] - 1) (9 - 1) = Return c' /\
    c <= c'.
Proof.
  apply knapsack_corner_monotone;
    [simpl; lia|repeat constructor; lia|unfold len; simpl; lia|lia].
Defined.

Lemma knapsack_ignores_extra_weights_witness :
  knapsack 6 ([0; 3; 2] ++ [-8; 100]) [0; 4; 7] = knapsack 6 [0; 3; 2] [0; 4; 7].
Proof. apply knapsack_ignores_extra_weights. simpl. lia. Defined.

Lemma knapsack_degenerate_witness :
  knapsack 1 [] [5; 6; 7] =
  Return (replicate (length [5; 6; 7]) (replicate (Z.to_nat 1) 0)) /\
  knapsack 8 [-3] [5] =
  Return (replicate (length [5]) (replicate (Z.to_nat 8) 0)).
Proof.
  split; apply knapsack_degenerate; [left; lia|right; unfold len; simpl; lia].
Defined.

Lemma knapsack_short_weights_raise_witness :
  knapsack 5 [0; 3] [0; 40; 45] = Raise IndexError.
Proof.
  apply knapsack_short_weights_raise; [simpl; lia|unfold len; simpl; lia|lia].
Defined.
